(** * sa-visualizer: the alignment scorer ([src/js/alignment-scorer.js])

    A shallow embedding of the [AlignmentScorer] class and the properties
    its specification states about it.

    Modelling choices, all taken from the source:
    - a JavaScript string is a [string], a list of [ascii] code units: the
      model covers the strings whose code units are below 256 (ASCII and
      Latin-1), which is more than alignment files hold.  On that range
      [String.prototype.trim] removes seven white space characters, and
      [String.prototype.toUpperCase] is modelled character by character, as
      the scorer uses it;
    - a JavaScript number is an IEEE 754 binary64 value: the kernel's
      primitive [float], whose [+], [*] and [/] round exactly as
      JavaScript's do; [0/0] is [nan];
    - the counters of the scoring loop ([matches], [gaps], ...) and string
      lengths are integers far below 2^53, where binary64 arithmetic on
      integers is exact; they are kept in [Z] and converted where the source
      divides;
    - [throw new Error(msg)] is the [Throw] result carrying [msg];
    - [new Set(...)] is a [gset]. *)

From Stdlib Require Import ZArith Lia Bool List Ascii String.
From Stdlib Require Import Floats Uint63.
From stdpp Require Import base decidable list sorting strings gmap.

Local Open Scope string_scope.
Local Open Scope list_scope.
Local Open Scope Z_scope.

(** ** JavaScript strings *)

Module JsString.

Definition gap : ascii := "-"%char.
Definition marker : ascii := ">"%char.
Definition newline : ascii := Ascii.ascii_of_nat 10.

(** [c.toUpperCase()] for a one-character string [c] with a code unit below
    256.  The letters [a]..[z] (97..122) and the Latin-1 letters 224..254,
    the division sign 247 apart, go 32 down; every other code unit but three
    is its own upper-case form.  The three are 181 (to U+039C), 223 (to the
    two letters "SS") and 255 (to U+0178), whose upper-case forms are not
    code units below 256.  No other code unit below 256 has one of these
    forms, and none of them is "-"; the scorer only compares upper-cased
    characters with each other and with "-", so each of the three stands
    here for its own upper-case form. *)
Definition toUpperCase (c : ascii) : ascii :=
  let n := Ascii.nat_of_ascii c in
  if (((97 <=? n) && (n <=? 122))
      || ((224 <=? n) && (n <=? 254) && negb (n =? 247)))%nat
  then Ascii.ascii_of_nat (n - 32) else c.

(** White space as [trim] sees it, among the code units below 256: TAB, LF,
    VT, FF, CR, SPACE and NO-BREAK SPACE (160). *)
Definition is_space (c : ascii) : bool :=
  let n := Ascii.nat_of_ascii c in
  (((9 <=? n) && (n <=? 13)) || (n =? 32) || (n =? 160))%nat.

Definition is_empty (s : string) : bool :=
  match s with EmptyString => true | String _ _ => false end.

Fixpoint trimStart (s : string) : string :=
  match s with
  | EmptyString => EmptyString
  | String c r => if is_space c then trimStart r else s
  end.

Fixpoint trimEnd (s : string) : string :=
  match s with
  | EmptyString => EmptyString
  | String c r =>
      let r' := trimEnd r in
      if is_space c && is_empty r' then EmptyString else String c r'
  end.

(** [s.trim()] *)
Definition trim (s : string) : string := trimEnd (trimStart s).

(** [s.startsWith(">")] *)
Definition startsWith_marker (s : string) : bool :=
  match s with
  | String c _ => bool_decide (c = marker)
  | EmptyString => false
  end.

(** [s.substring(1)] *)
Definition substring1 (s : string) : string :=
  match s with
  | String _ r => r
  | EmptyString => EmptyString
  end.

(** [s.split("\n")]: never empty, the empty string gives one empty line. *)
Fixpoint split_lines (s : string) : list string :=
  match s with
  | EmptyString => [EmptyString]
  | String c r =>
      if bool_decide (c = newline) then EmptyString :: split_lines r
      else match split_lines r with
           | l :: ls => String c l :: ls
           | [] => [String c EmptyString]
           end
  end.

(** The string with every white space character taken out. *)
Fixpoint strip_spaces (s : string) : string :=
  match s with
  | EmptyString => EmptyString
  | String c r => if is_space c then strip_spaces r else String c (strip_spaces r)
  end.

Fixpoint has_space (s : string) : bool :=
  match s with
  | EmptyString => false
  | String c r => is_space c || has_space r
  end.

Fixpoint concat_strings (ls : list string) : string :=
  match ls with
  | [] => EmptyString
  | l :: r => l +:+ concat_strings r
  end.

(** [s[i]] for an index inside the string. *)
Definition charAt (s : string) (i : nat) : option ascii := String.get i s.

End JsString.

(** ** JavaScript numbers *)

Module JsNumber.

Definition number := float.

(** The number an integer counter holds (exact below 2^53). *)
Definition of_Z (z : Z) : number :=
  if (z <? 0)%Z then (- PrimFloat.of_uint63 (Uint63.of_Z (- z)))%float
  else PrimFloat.of_uint63 (Uint63.of_Z z).

(** The integer [n] nearest to [v * 100] for [v = m * 2^e], the larger one
    on a tie: the digits [toFixed(2)] prints for [v]. *)
Definition toFixed2_cents (m : positive) (e : Z) : Z :=
  match e with
  | Zneg p => (Z.pos m * 200 + 2 ^ Z.pos p) / 2 ^ (Z.pos p + 1)
  | _ => Z.pos m * 100 * 2 ^ e
  end.

(** [parseFloat(x.toFixed(2))].

    [toFixed(2)] prints ["NaN"] for [nan]; for [|x| >= 1e21] it prints as
    [String(x)] does, which reads back as [x], and so do the infinities;
    otherwise it prints [n / 100] for the integer [n] nearest to
    [|x| * 100], with the sign of [x] when [x < 0].  [parseFloat] reads the
    decimal back to the nearest binary64 value, which is the correctly
    rounded quotient of [n] by [100]. *)
Definition round2 (x : number) : number :=
  if PrimFloat.is_nan x then PrimFloat.nan
  else if (1e21 <=? PrimFloat.abs x)%float then x
  else match Prim2SF x with
       | S754_finite s m e =>
           match toFixed2_cents m e with
           | Z.pos p =>
               SF2Prim (SFdiv prec emax (S754_finite s p 0)
                                        (S754_finite false 100 0))
           | _ => if s then PrimFloat.neg_zero else PrimFloat.zero
           end
       | S754_zero _ => PrimFloat.zero
       | _ => x
       end.

End JsNumber.

Import JsString JsNumber.

(** ** Exceptions

    [throw new Error(msg)] ends a call with [Throw (Error msg)].  Reading a
    property of [undefined] (an index past the end of an array or a string)
    raises a [TypeError]. *)

Inductive JsError : Type :=
| Error (message : string)
| TypeError.

Inductive completion (A : Type) : Type :=
| Return (a : A)
| Throw (e : JsError).

Arguments Return {A} a.
Arguments Throw {A} e.

(** A thrown error ends the statements that follow it. *)
#[global] Instance completion_ret : MRet completion := fun A a => Return a.
#[global] Instance completion_bind : MBind completion := fun A B k c =>
  match c with
  | Return a => k a
  | Throw e => Throw e
  end.

(** [for (let i = start; i < start + count; i++) body], threading the
    variables the body assigns as a state [s]. *)
Fixpoint for_loop {S : Type} (start count : nat)
    (body : nat -> S -> completion S) (s : S) : completion S :=
  match count with
  | O => Return s
  | Datatypes.S k => s' ← body start s; for_loop (Datatypes.S start) k body s'
  end.

(** [for (let x of xs) body] *)
Fixpoint for_of {A S : Type} (xs : list A)
    (body : A -> S -> completion S) (s : S) : completion S :=
  match xs with
  | [] => Return s
  | x :: r => s' ← body x s; for_of r body s'
  end.

(** [xs.map(f)] where [f] may throw. *)
Fixpoint map_throwing {A B : Type} (f : A -> completion B) (xs : list A) : completion (list B) :=
  match xs with
  | [] => Return []
  | x :: r => y ← f x; ys ← map_throwing f r; Return (y :: ys)
  end.

(** The error taxonomy of the specification, read off the messages the
    source throws. *)
Inductive ErrorKind : Type := LengthMismatch | MinimumSequences | Unclassified.

Definition MSG_PAIR_LENGTH : string :=
  "Sequences must be of equal length for alignment scoring".
Definition MSG_MSA_MINIMUM : string :=
  "Need at least 2 sequences for MSA scoring".
Definition MSG_MSA_LENGTH : string :=
  "All sequences must be same length in MSA".

Definition error_kind (e : JsError) : ErrorKind :=
  match e with
  | Error m =>
      if bool_decide (m = MSG_PAIR_LENGTH) || bool_decide (m = MSG_MSA_LENGTH)
      then LengthMismatch
      else if bool_decide (m = MSG_MSA_MINIMUM) then MinimumSequences
      else Unclassified
  | TypeError => Unclassified
  end.

(** ** The data model *)

Module SequenceRecord.
Record t : Type := mk { id : string; sequence : string }.
End SequenceRecord.

Module PairwiseScore.
Record t : Type := mk {
  score : number;
  matches : Z;
  mismatches : Z;
  gaps : Z;
  gapRuns : Z;
  identity : number;
  similarity : number;
  length : Z
}.
End PairwiseScore.

Module MSAStats.
Record t : Type := mk {
  numSequences : Z;
  alignmentLength : Z;
  conservedPositions : Z;
  conservation : number;
  averageScore : number;
  averageIdentity : number;
  pairwiseScores : list PairwiseScore.t;
  totalPairs : Z
}.
End MSAStats.

(** ** class AlignmentScorer *)

Module AlignmentScorer.

(** The instance fields. *)
Record t : Type := mk {
  matchScore : number;
  mismatchScore : number;
  gapPenalty : number;
  gapExtensionPenalty : number
}.

(** [constructor()]: default scoring parameters for DNA. *)
Definition constructor : t :=
  {| matchScore := 2;
     mismatchScore := -1;
     gapPenalty := -2;
     gapExtensionPenalty := -0.5 |}%float.

(** The [params] object of [setParameters]: a field that is absent (or
    [undefined]) is [None]. *)
Record Params : Type := mkParams {
  p_matchScore : option number;
  p_mismatchScore : option number;
  p_gapPenalty : option number;
  p_gapExtensionPenalty : option number
}.

(** [setParameters(params)] *)
Definition setParameters (this : t) (params : Params) : t :=
  let this :=
    match p_matchScore params with
    | Some v => {| matchScore := v; mismatchScore := mismatchScore this;
                   gapPenalty := gapPenalty this;
                   gapExtensionPenalty := gapExtensionPenalty this |}
    | None => this
    end in
  let this :=
    match p_mismatchScore params with
    | Some v => {| matchScore := matchScore this; mismatchScore := v;
                   gapPenalty := gapPenalty this;
                   gapExtensionPenalty := gapExtensionPenalty this |}
    | None => this
    end in
  let this :=
    match p_gapPenalty params with
    | Some v => {| matchScore := matchScore this; mismatchScore := mismatchScore this;
                   gapPenalty := v;
                   gapExtensionPenalty := gapExtensionPenalty this |}
    | None => this
    end in
  match p_gapExtensionPenalty params with
  | Some v => {| matchScore := matchScore this; mismatchScore := mismatchScore this;
                 gapPenalty := gapPenalty this;
                 gapExtensionPenalty := v |}
  | None => this
  end.

(** *** parseFASTA *)

(** The loop variables of [parseFASTA]: the records pushed so far and the
    record being read, if any. *)
Record ParseState : Type := mkParse {
  sequences : list SequenceRecord.t;
  currentSeq : option SequenceRecord.t
}.

(** [if (currentSeq) sequences.push(currentSeq)] *)
Definition push_current (st : ParseState) : list SequenceRecord.t :=
  match currentSeq st with
  | Some cur => sequences st ++ [cur]
  | None => sequences st
  end.

(** One round of [for (let line of lines)]. *)
Definition parse_line (st : ParseState) (line : string) : ParseState :=
  let line := trim line in
  if startsWith_marker line then
    {| sequences := push_current st;
       currentSeq := Some {| SequenceRecord.id := substring1 line;
                             SequenceRecord.sequence := "" |} |}
  else
    match currentSeq st with
    | Some cur =>
        if negb (is_empty line) then
          {| sequences := sequences st;
             currentSeq := Some {| SequenceRecord.id := SequenceRecord.id cur;
                                   SequenceRecord.sequence :=
                                     SequenceRecord.sequence cur +:+ line |} |}
        else st
    | None => st
    end.

Definition parseFASTA (fastaContent : string) : list SequenceRecord.t :=
  let lines := split_lines fastaContent in
  push_current (fold_left parse_line lines {| sequences := []; currentSeq := None |}).

(** *** calculatePairwiseScore *)

(** The loop variables of the column scan. *)
Record ScanState : Type := mkScan {
  s_matches : Z;
  s_mismatches : Z;
  s_gaps : Z;
  s_score : number;
  s_gapRuns : Z;
  s_inGap : bool
}.

Definition scan_init : ScanState :=
  {| s_matches := 0; s_mismatches := 0; s_gaps := 0; s_score := 0%float;
     s_gapRuns := 0; s_inGap := false |}.

(** The body of the column loop at characters [seq1[i]] and [seq2[i]]. *)
Definition scan_column (this : t) (c1 c2 : ascii) (st : ScanState) : ScanState :=
  let char1 := toUpperCase c1 in
  let char2 := toUpperCase c2 in
  if bool_decide (char1 = gap) || bool_decide (char2 = gap) then
    if negb (s_inGap st) then
      {| s_matches := s_matches st; s_mismatches := s_mismatches st;
         s_gaps := s_gaps st + 1;
         s_score := (s_score st + gapPenalty this)%float;
         s_gapRuns := s_gapRuns st + 1;
         s_inGap := true |}
    else
      {| s_matches := s_matches st; s_mismatches := s_mismatches st;
         s_gaps := s_gaps st + 1;
         s_score := (s_score st + gapExtensionPenalty this)%float;
         s_gapRuns := s_gapRuns st;
         s_inGap := s_inGap st |}
  else
    if bool_decide (char1 = char2) then
      {| s_matches := s_matches st + 1; s_mismatches := s_mismatches st;
         s_gaps := s_gaps st;
         s_score := (s_score st + matchScore this)%float;
         s_gapRuns := s_gapRuns st;
         s_inGap := false |}
    else
      {| s_matches := s_matches st; s_mismatches := s_mismatches st + 1;
         s_gaps := s_gaps st;
         s_score := (s_score st + mismatchScore this)%float;
         s_gapRuns := s_gapRuns st;
         s_inGap := false |}.

(** [for (let i = 0; i < seq1.length; i++)]: the loop walks both strings in
    step; it is entered only with strings of one length. *)
Fixpoint scan (this : t) (seq1 seq2 : string) (st : ScanState) : ScanState :=
  match seq1, seq2 with
  | String c1 r1, String c2 r2 => scan this r1 r2 (scan_column this c1 c2 st)
  | _, _ => st
  end.

Definition str_length (s : string) : Z := Z.of_nat (String.length s).

Definition calculatePairwiseScore (this : t) (seq1 seq2 : string)
  : completion PairwiseScore.t :=
  if negb (str_length seq1 =? str_length seq2) then
    Throw (Error MSG_PAIR_LENGTH)
  else
    let st := scan this seq1 seq2 scan_init in
    let matches := s_matches st in
    let mismatches := s_mismatches st in
    let gaps := s_gaps st in
    let identity :=
      (of_Z matches / of_Z (matches + mismatches + gaps) * 100)%float in
    let similarity :=
      (of_Z matches / of_Z (str_length seq1 - gaps) * 100)%float in
    Return {| PairwiseScore.score := s_score st;
              PairwiseScore.matches := matches;
              PairwiseScore.mismatches := mismatches;
              PairwiseScore.gaps := gaps;
              PairwiseScore.gapRuns := s_gapRuns st;
              PairwiseScore.identity := round2 identity;
              PairwiseScore.similarity := round2 similarity;
              PairwiseScore.length := str_length seq1 |}.

(** *** calculateMSAStats *)

(** [seq.sequence[pos].toUpperCase()] *)
Definition char_at (pos : nat) (seq : SequenceRecord.t) : completion ascii :=
  match charAt (SequenceRecord.sequence seq) pos with
  | Some c => Return (toUpperCase c)
  | None => Throw TypeError
  end.

(** [new Set(chars.filter((c) => c !== "-"))] *)
Definition uniqueChars (chars : list ascii) : gset ascii :=
  list_to_set (filter (λ c, c ≠ gap) chars).

(** [uniqueChars.size === 1 && !uniqueChars.has("-")] *)
Definition is_conserved (chars : list ascii) : bool :=
  bool_decide (size (uniqueChars chars) = 1%nat)
  && negb (bool_decide (gap ∈ uniqueChars chars)).

(** The body of the conservation loop at column [pos]. *)
Definition conservation_body (seqs : list SequenceRecord.t)
    (pos : nat) (conservedPositions : Z) : completion Z :=
  chars ← map_throwing (char_at pos) seqs;
  Return (if is_conserved chars then conservedPositions + 1 else conservedPositions).

(** The loop variables of the pairwise loops. *)
Record PairState : Type := mkPairs {
  st_pairwiseScores : list PairwiseScore.t;
  st_totalScore : number
}.

(** The body of the inner pairwise loop at indices [i] and [j]. *)
Definition pair_body (this : t) (seqs : list SequenceRecord.t)
    (i j : nat) (st : PairState) : completion PairState :=
  match seqs !! i, seqs !! j with
  | Some si, Some sj =>
      pairScore ← calculatePairwiseScore this
                    (SequenceRecord.sequence si) (SequenceRecord.sequence sj);
      Return {| st_pairwiseScores := st_pairwiseScores st ++ [pairScore];
                st_totalScore :=
                  (st_totalScore st + PairwiseScore.score pairScore)%float |}
  | _, _ => Throw TypeError
  end.

Definition check_length (alignmentLength : Z)
    (seq : SequenceRecord.t) (_ : unit) : completion unit :=
  if negb (str_length (SequenceRecord.sequence seq) =? alignmentLength)
  then Throw (Error MSG_MSA_LENGTH)
  else Return tt.

Definition calculateMSAStats (this : t) (seqs : list SequenceRecord.t)
  : completion MSAStats.t :=
  if (length seqs <? 2)%nat then Throw (Error MSG_MSA_MINIMUM)
  else
    match seqs !! 0%nat with
    | None => Throw TypeError
    | Some first =>
        let alignmentLength := String.length (SequenceRecord.sequence first) in
        let numSequences := length seqs in
        _ ← for_of seqs (check_length (Z.of_nat alignmentLength)) tt;
        conservedPositions ←
          for_loop 0 alignmentLength (conservation_body seqs) 0;
        pairs ←
          for_loop 0 numSequences
            (λ i, for_loop (S i) (numSequences - S i) (pair_body this seqs i))
            {| st_pairwiseScores := []; st_totalScore := 0%float |};
        let pairwiseScores := st_pairwiseScores pairs in
        let count := of_Z (Z.of_nat (length pairwiseScores)) in
        let avgIdentity :=
          (fold_left (λ sum ps, sum + PairwiseScore.identity ps)
                     pairwiseScores 0 / count)%float in
        let avgScore := (st_totalScore pairs / count)%float in
        let conservation :=
          (of_Z conservedPositions / of_Z (Z.of_nat alignmentLength) * 100)%float in
        Return {| MSAStats.numSequences := Z.of_nat numSequences;
                  MSAStats.alignmentLength := Z.of_nat alignmentLength;
                  MSAStats.conservedPositions := conservedPositions;
                  MSAStats.conservation := round2 conservation;
                  MSAStats.averageScore := round2 avgScore;
                  MSAStats.averageIdentity := round2 avgIdentity;
                  MSAStats.pairwiseScores := pairwiseScores;
                  MSAStats.totalPairs := Z.of_nat (length pairwiseScores) |}
    end.

(** *** getQualityColor, getQualityLabel *)

Definition getQualityColor (identity : number) : string :=
  if (80 <=? identity)%float then "#28a745"
  else if (60 <=? identity)%float then "#ffc107"
  else if (40 <=? identity)%float then "#fd7e14"
  else "#dc3545".

Definition getQualityLabel (identity : number) : string :=
  if (80 <=? identity)%float then "Excellent"
  else if (60 <=? identity)%float then "Good"
  else if (40 <=? identity)%float then "Fair"
  else "Poor".

End AlignmentScorer.

Import AlignmentScorer.

(** * The vocabulary of the specification *)

(** What the loop of [calculatePairwiseScore] maintains after [n] columns. *)
Record scan_inv (n : Z) (st : ScanState) : Prop := {
  inv_matches : 0 <= s_matches st;
  inv_mismatches : 0 <= s_mismatches st;
  inv_total : s_matches st + s_mismatches st + s_gaps st = n;
  inv_runs_lo : 0 <= s_gapRuns st;
  inv_runs_hi : s_gapRuns st <= s_gaps st;
  inv_runs_pos : 0 < s_gaps st -> 0 < s_gapRuns st;
  inv_in_gap : s_inGap st = true -> 0 < s_gapRuns st
}.

(** Every column of the pair is a gap column: one of the two sequences has
    the gap character there. *)
Fixpoint all_gap_columns (seq1 seq2 : string) : bool :=
  match seq1, seq2 with
  | String c1 r1, String c2 r2 =>
      (bool_decide (toUpperCase c1 = gap) || bool_decide (toUpperCase c2 = gap))
      && all_gap_columns r1 r2
  | _, _ => true
  end.

(** The records' sequences all have one length. *)
Definition uniform_length (seqs : list SequenceRecord.t) : Prop :=
  forall a b, a ∈ seqs -> b ∈ seqs ->
    String.length (SequenceRecord.sequence a) = String.length (SequenceRecord.sequence b).

(** A valid input of the aggregator: at least 2 records of one length. *)
Definition valid_alignment (seqs : list SequenceRecord.t) : Prop :=
  (2 <= length seqs)%nat /\ uniform_length seqs.

(** The length of the alignment: that of its first record. *)
Definition alignment_length (seqs : list SequenceRecord.t) : nat :=
  match seqs with
  | first :: _ => String.length (SequenceRecord.sequence first)
  | [] => 0
  end.

(** [c] is a case-normalized non-gap character found at column [p] of some
    record. *)
Definition nongap_at (seqs : list SequenceRecord.t) (p : nat) (c : ascii) : Prop :=
  c <> gap /\
  exists s c0, s ∈ seqs /\ charAt (SequenceRecord.sequence s) p = Some c0
               /\ toUpperCase c0 = c.

(** The set of distinct normalized non-gap characters at column [p] has
    exactly one member. *)
Definition one_nongap_char (seqs : list SequenceRecord.t) (p : nat) : Prop :=
  exists c, nongap_at seqs p c /\ forall c', nongap_at seqs p c' -> c' = c.

(** The index pairs [(i, j)] with [i < j < n], ascending in [i] and then
    in [j]. *)
Definition index_pairs (n : nat) : list (nat * nat) :=
  List.filter (fun ij => (fst ij <? snd ij)%nat) (list_prod (seq 0 n) (seq 0 n)).

(** [(i, j)] comes before [(i', j')]: ascending [i], then ascending [j]. *)
Definition pair_before (a b : nat * nat) : Prop :=
  (fst a < fst b)%nat \/ (fst a = fst b /\ (snd a < snd b)%nat).

(** The same pairs as the two nested loops visit them: row [i] holds the
    pairs [(i, j)] for [j] from [i + 1]; the first [k] rows. *)
Definition pair_rows (n k : nat) : list (nat * nat) :=
  flat_map (fun i => map (pair i) (seq (S i) (n - S i))) (seq 0 k).

(** The score of the records at indices [i] and [j] is [r]. *)
Definition pair_scored (this : AlignmentScorer.t) (seqs : list SequenceRecord.t)
    (ij : nat * nat) (r : PairwiseScore.t) : Prop :=
  exists si sj, seqs !! fst ij = Some si /\ seqs !! snd ij = Some sj /\
    calculatePairwiseScore this
      (SequenceRecord.sequence si) (SequenceRecord.sequence sj) = Return r.

(** A header line: after trimming it starts with the marker. *)
Definition is_header (line : string) : bool := startsWith_marker (trim line).

(** The id a header line gives: the rest of the trimmed line. *)
Definition header_id (line : string) : string := substring1 (trim line).

(** The non-header lines that follow a header, up to the next header. *)
Fixpoint record_lines (lines : list string) : list string :=
  match lines with
  | [] => []
  | l :: r => if is_header l then [] else l :: record_lines r
  end.

(** One record per header line, in order; [text] makes a record's sequence
    from its non-header lines.  Lines before the first header belong to no
    record. *)
Fixpoint records_of (text : list string -> string) (lines : list string)
  : list SequenceRecord.t :=
  match lines with
  | [] => []
  | l :: r =>
      if is_header l
      then {| SequenceRecord.id := header_id l;
              SequenceRecord.sequence := text (record_lines r) |} :: records_of text r
      else records_of text r
  end.

(** The concatenation of the lines with white space removed. *)
Definition joined_without_spaces (lines : list string) : string :=
  strip_spaces (concat_strings lines).

(** The concatenation of the trimmed lines. *)
Definition joined_trimmed (lines : list string) : string :=
  concat_strings (map trim lines).

(** Well-formed FASTA text: a sequence line has no white space inside it
    (only around it). *)
Definition well_formed (fastaContent : string) : Prop :=
  forall l, l ∈ split_lines fastaContent -> is_header l = false ->
    has_space (trim l) = false.

(** ** Further vocabulary *)

(** The string of the upper-cased characters of [s], character by
    character: [s.toUpperCase()] when [s] is ASCII. *)
Fixpoint upper (s : string) : string :=
  match s with
  | EmptyString => EmptyString
  | String c r => String (toUpperCase c) (upper r)
  end.

(** The kind of an alignment column. *)
Inductive ColumnKind : Type := GapColumn | MatchColumn | MismatchColumn.

#[global] Instance ColumnKind_eq_dec : EqDecision ColumnKind.
Proof. solve_decision. Defined.

Definition column_kind (c1 c2 : ascii) : ColumnKind :=
  if bool_decide (toUpperCase c1 = gap) || bool_decide (toUpperCase c2 = gap)
  then GapColumn
  else if bool_decide (toUpperCase c1 = toUpperCase c2) then MatchColumn
  else MismatchColumn.

(** The kinds of the columns of a pair, left to right. *)
Fixpoint column_kinds (seq1 seq2 : string) : list ColumnKind :=
  match seq1, seq2 with
  | String c1 r1, String c2 r2 => column_kind c1 c2 :: column_kinds r1 r2
  | _, _ => []
  end.

(** How many columns are of kind [k]. *)
Definition count_kind (k : ColumnKind) (ks : list ColumnKind) : Z :=
  Z.of_nat (length (List.filter (fun k' => bool_decide (k' = k)) ks)).

(** The number of maximal runs of gap columns, counted where a run ends: at
    a gap column that is the last column or is followed by a column that is
    not a gap column. *)
Fixpoint gap_runs (ks : list ColumnKind) : Z :=
  match ks with
  | [] => 0
  | GapColumn :: rest =>
      match rest with
      | GapColumn :: _ => 0
      | _ => 1
      end + gap_runs rest
  | _ :: rest => gap_runs rest
  end.

(** The number of gap characters of a sequence. *)
Fixpoint gap_count (s : string) : Z :=
  match s with
  | EmptyString => 0
  | String c r => (if bool_decide (c = gap) then 1 else 0) + gap_count r
  end.

(** A result with its score field blanked out. *)
Definition forget_score (c : completion PairwiseScore.t) : completion PairwiseScore.t :=
  match c with
  | Return r =>
      Return {| PairwiseScore.score := 0%float;
                PairwiseScore.matches := PairwiseScore.matches r;
                PairwiseScore.mismatches := PairwiseScore.mismatches r;
                PairwiseScore.gaps := PairwiseScore.gaps r;
                PairwiseScore.gapRuns := PairwiseScore.gapRuns r;
                PairwiseScore.identity := PairwiseScore.identity r;
                PairwiseScore.similarity := PairwiseScore.similarity r;
                PairwiseScore.length := PairwiseScore.length r |}
  | Throw e => Throw e
  end.

(** Two records with empty sequences: a valid alignment of zero columns. *)
Definition empty_alignment : list SequenceRecord.t :=
  [ SequenceRecord.mk "a" ""; SequenceRecord.mk "b" "" ].

(** Two records of one length whose ids differ from those of the first two
    records of the example. *)
Definition renamed_alignment : list SequenceRecord.t :=
  [ SequenceRecord.mk "first" "AC-T-";
    SequenceRecord.mk "second" "ac-g-";
    SequenceRecord.mk "third" "A-GGT" ].

(** The parameters supplied by [p] and then by [q]: a field of [q] wins
    over the same field of [p]. *)
Definition override (p q : Params) : Params :=
  {| p_matchScore :=
       match p_matchScore q with Some v => Some v | None => p_matchScore p end;
     p_mismatchScore :=
       match p_mismatchScore q with Some v => Some v | None => p_mismatchScore p end;
     p_gapPenalty :=
       match p_gapPenalty q with Some v => Some v | None => p_gapPenalty p end;
     p_gapExtensionPenalty :=
       match p_gapExtensionPenalty q with
       | Some v => Some v
       | None => p_gapExtensionPenalty p
       end |}.

(** The tiers in order: Poor, Fair, Good, Excellent. *)
Definition tier_rank (label : string) : nat :=
  if decide (label = "Excellent") then 3
  else if decide (label = "Good") then 2
  else if decide (label = "Fair") then 1
  else 0.

(** [lo] is a lower-case letter with a code unit below 256 whose upper-case
    form is the code unit [up]: [a]..[z], or a Latin-1 letter 224..254 (247
    is the division sign), and [up] is 32 below. *)
Definition letter_pair (lo up : ascii) : Prop :=
  ((97 <= Ascii.nat_of_ascii lo <= 122)%nat
   \/ ((224 <= Ascii.nat_of_ascii lo <= 254)%nat /\ Ascii.nat_of_ascii lo <> 247%nat))
  /\ up = Ascii.ascii_of_nat (Ascii.nat_of_ascii lo - 32).

(** A gap run goes across the joint of two alignments put end to end: the
    last column of the first and the first column of the second are gap
    columns. *)
Definition crosses_joint (ks1 ks2 : list ColumnKind) : bool :=
  bool_decide (last ks1 = Some GapColumn) && bool_decide (head ks2 = Some GapColumn).

(** An alignment of three records and five columns, used as an example. *)
Definition example_alignment : list SequenceRecord.t :=
  [ SequenceRecord.mk "a" "AC-T-";
    SequenceRecord.mk "b" "ac-g-";
    SequenceRecord.mk "c" "A-GGT" ].

(** A FASTA text of two records, the first on two lines with white space
    around them and a blank line after. *)
Definition lf : string := String newline EmptyString.

Definition example_fasta : string :=
  ">s1 first" +:+ lf +:+ "AC" +:+ lf +:+ "  GT " +:+ lf +:+ lf +:+
  ">s2" +:+ lf +:+ "A-GT" +:+ lf.

(** The string holds the character [c]. *)
Fixpoint contains (c : ascii) (s : string) : bool :=
  match s with
  | EmptyString => false
  | String c' r => bool_decide (c' = c) || contains c r
  end.

(** A record written out as FASTA: the marker and the id on one line, the
    sequence on the next. *)
Definition render_record (r : SequenceRecord.t) : string :=
  String marker (SequenceRecord.id r) +:+ String newline
    (SequenceRecord.sequence r +:+ String newline EmptyString).

Fixpoint render (records : list SequenceRecord.t) : string :=
  match records with
  | [] => EmptyString
  | r :: rest => render_record r +:+ render rest
  end.

(** A record that can be written on two lines and read back: no line feed
    in its id or sequence, no white space at the end of the id or around the
    sequence, and a sequence that does not start with the marker. *)
Definition plain (r : SequenceRecord.t) : Prop :=
  contains newline (SequenceRecord.id r) = false
  /\ trimEnd (SequenceRecord.id r) = SequenceRecord.id r
  /\ contains newline (SequenceRecord.sequence r) = false
  /\ trim (SequenceRecord.sequence r) = SequenceRecord.sequence r
  /\ startsWith_marker (SequenceRecord.sequence r) = false.

(** The text with every line feed turned into carriage return, line feed. *)
Definition carriage_return : ascii := Ascii.ascii_of_nat 13.

Fixpoint to_crlf (s : string) : string :=
  match s with
  | EmptyString => EmptyString
  | String c r =>
      if bool_decide (c = newline)
      then String carriage_return (String newline (to_crlf r))
      else String c (to_crlf r)
  end.

(** A FASTA text with one record only. *)
Definition single_record_fasta : string :=
  ">only" +:+ lf +:+ "ACGT" +:+ lf.

(** Two copies of one sequence, in different letter case. *)
Definition copies_alignment : list SequenceRecord.t :=
  [ SequenceRecord.mk "a" "ACGT"; SequenceRecord.mk "b" "acgt" ].

(** Strings with code units above 127: e with acute accent in lower and in
    upper case, and a header line after a no-break space. *)
Definition e_acute_lower : string := String (Ascii.ascii_of_nat 233) EmptyString.
Definition e_acute_upper : string := String (Ascii.ascii_of_nat 201) EmptyString.
Definition no_break_space : string := String (Ascii.ascii_of_nat 160) EmptyString.

Definition nbsp_fasta : string :=
  no_break_space +:+ ">x" +:+ lf +:+ "AC" +:+ no_break_space +:+ lf +:+
  no_break_space +:+ ">y" +:+ lf +:+ "AG" +:+ lf.

(** * Properties *)

(** ** The column scan *)

Lemma scan_inv_init : scan_inv 0 scan_init.
Proof. split; simpl; (lia || discriminate). Qed.

Lemma scan_column_inv this c1 c2 n st :
  scan_inv n st -> scan_inv (n + 1) (scan_column this c1 c2 st).
Proof.
  intros [Hm Hx Ht Hl Hh Hp Hg]. unfold scan_column.
  destruct (bool_decide (toUpperCase c1 = gap) || bool_decide (toUpperCase c2 = gap)).
  - destruct (s_inGap st) eqn:Hin; simpl.
    + specialize (Hg eq_refl). split; simpl; try lia; auto.
    + split; simpl; try lia.
  - destruct (bool_decide (toUpperCase c1 = toUpperCase c2));
      split; simpl; try lia; discriminate.
Qed.

Lemma scan_inv_steps this seq1 : forall seq2 n st,
  String.length seq1 = String.length seq2 ->
  scan_inv n st ->
  scan_inv (n + str_length seq1) (scan this seq1 seq2 st).
Proof.
  unfold str_length.
  induction seq1 as [|c1 r1 IH]; intros [|c2 r2] n st Hlen Hinv;
    simpl in *; try discriminate.
  - now rewrite Z.add_0_r.
  - injection Hlen as Hlen.
    replace (n + Z.of_nat (S (String.length r1)))
      with ((n + 1) + Z.of_nat (String.length r1)) by lia.
    apply IH; [assumption | now apply scan_column_inv].
Qed.

Lemma scan_inv_result this seq1 seq2 :
  String.length seq1 = String.length seq2 ->
  scan_inv (str_length seq1) (scan this seq1 seq2 scan_init).
Proof.
  intros Hlen. change (str_length seq1) with (0 + str_length seq1).
  apply scan_inv_steps; [assumption | apply scan_inv_init].
Qed.

(** On strings of one length the scorer returns, and its result is read off
    the final loop state. *)
Lemma calculatePairwiseScore_returns this seq1 seq2 :
  String.length seq1 = String.length seq2 ->
  exists r, calculatePairwiseScore this seq1 seq2 = Return r
    /\ PairwiseScore.matches r = s_matches (scan this seq1 seq2 scan_init)
    /\ PairwiseScore.mismatches r = s_mismatches (scan this seq1 seq2 scan_init)
    /\ PairwiseScore.gaps r = s_gaps (scan this seq1 seq2 scan_init)
    /\ PairwiseScore.gapRuns r = s_gapRuns (scan this seq1 seq2 scan_init)
    /\ PairwiseScore.length r = str_length seq1
    /\ PairwiseScore.identity r
       = round2 (of_Z (PairwiseScore.matches r)
                 / of_Z (PairwiseScore.matches r + PairwiseScore.mismatches r
                         + PairwiseScore.gaps r) * 100)%float
    /\ PairwiseScore.similarity r
       = round2 (of_Z (PairwiseScore.matches r)
                 / of_Z (PairwiseScore.length r - PairwiseScore.gaps r) * 100)%float.
Proof.
  intros Hlen. unfold calculatePairwiseScore, str_length. rewrite Hlen, Z.eqb_refl.
  simpl. eexists. split; [reflexivity|]. simpl. repeat split; reflexivity.
Qed.

(** ** The pairwise scorer *)

(** C1: with the default parameters, scoring "AC-T" against "ACGT" gives
    gaps 1, gapRuns 1, matches 3, mismatches 0, score 4, identity 75,
    similarity 100 and length 4, whichever of the two sequences holds the
    gap; for any parameters the score of that pair is three match scores and
    the gap-open penalty once, with no gap-extension penalty. *)
Theorem score_example_single_gap :
  constructor
  = {| matchScore := 2; mismatchScore := -1;
       gapPenalty := -2; gapExtensionPenalty := -0.5 |}%float
  /\ calculatePairwiseScore constructor "AC-T" "ACGT"
     = Return {| PairwiseScore.score := 4%float;
                 PairwiseScore.matches := 3;
                 PairwiseScore.mismatches := 0;
                 PairwiseScore.gaps := 1;
                 PairwiseScore.gapRuns := 1;
                 PairwiseScore.identity := 75%float;
                 PairwiseScore.similarity := 100%float;
                 PairwiseScore.length := 4 |}
  /\ calculatePairwiseScore constructor "ACGT" "AC-T"
     = calculatePairwiseScore constructor "AC-T" "ACGT"
  /\ forall this : AlignmentScorer.t,
       calculatePairwiseScore this "AC-T" "ACGT"
       = Return {| PairwiseScore.score :=
                     (0 + matchScore this + matchScore this
                        + gapPenalty this + matchScore this)%float;
                   PairwiseScore.matches := 3;
                   PairwiseScore.mismatches := 0;
                   PairwiseScore.gaps := 1;
                   PairwiseScore.gapRuns := 1;
                   PairwiseScore.identity := 75%float;
                   PairwiseScore.similarity := 100%float;
                   PairwiseScore.length := 4 |}.
Proof.
  repeat split; try (vm_compute; reflexivity).
Qed.

(** C4: on two sequences of different lengths the pairwise scorer throws
    its length error, a LengthMismatch, and returns no score. *)
Theorem pairwise_length_mismatch (this : AlignmentScorer.t) (seq1 seq2 : string) :
  String.length seq1 <> String.length seq2 ->
  calculatePairwiseScore this seq1 seq2 = Throw (Error MSG_PAIR_LENGTH)
  /\ error_kind (Error MSG_PAIR_LENGTH) = LengthMismatch
  /\ forall r, calculatePairwiseScore this seq1 seq2 <> Return r.
Proof.
  intros Hne.
  assert (H : calculatePairwiseScore this seq1 seq2 = Throw (Error MSG_PAIR_LENGTH)).
  { unfold calculatePairwiseScore, str_length.
    destruct (Z.eqb_spec (Z.of_nat (String.length seq1)) (Z.of_nat (String.length seq2)))
      as [Heq|_]; [lia | reflexivity]. }
  split; [exact H|]. split; [reflexivity|].
  intros r Hr. rewrite H in Hr. discriminate.
Qed.

Lemma pairwise_length_mismatch_witness :
  String.length "ACG" <> String.length "AC"
  /\ calculatePairwiseScore constructor "ACG" "AC" = Throw (Error MSG_PAIR_LENGTH).
Proof.
  assert (H : String.length "ACG" <> String.length "AC") by (simpl; lia).
  split; [exact H|].
  exact (proj1 (pairwise_length_mismatch constructor "ACG" "AC" H)).
Defined.

(** C10: on two sequences of one length the score returned has
    matches + mismatches + gaps = length, the common input length, and
    gapRuns <= gaps, with gapRuns = 0 exactly when gaps = 0. *)
Theorem pairwise_counts_invariant (this : AlignmentScorer.t) (seq1 seq2 : string) :
  String.length seq1 = String.length seq2 ->
  exists r, calculatePairwiseScore this seq1 seq2 = Return r
    /\ PairwiseScore.matches r + PairwiseScore.mismatches r + PairwiseScore.gaps r
       = PairwiseScore.length r
    /\ PairwiseScore.length r = Z.of_nat (String.length seq1)
    /\ PairwiseScore.length r = Z.of_nat (String.length seq2)
    /\ PairwiseScore.gapRuns r <= PairwiseScore.gaps r
    /\ (PairwiseScore.gapRuns r = 0 <-> PairwiseScore.gaps r = 0).
Proof.
  intros Hlen.
  destruct (calculatePairwiseScore_returns this seq1 seq2 Hlen)
    as (r & Hr & Hm & Hx & Hg & Hruns & Hl & _ & _).
  destruct (scan_inv_result this seq1 seq2 Hlen) as [? ? ? ? ? ? ?].
  exists r. rewrite Hm, Hx, Hg, Hruns, Hl. unfold str_length in *.
  repeat split; (assumption || lia).
Qed.

Lemma pairwise_counts_invariant_witness :
  exists r, calculatePairwiseScore constructor "a-cgt--T" "A-GGTAAC" = Return r
    /\ PairwiseScore.matches r + PairwiseScore.mismatches r + PairwiseScore.gaps r
       = PairwiseScore.length r
    /\ PairwiseScore.length r = 8
    /\ PairwiseScore.length r = 8
    /\ PairwiseScore.gapRuns r <= PairwiseScore.gaps r
    /\ (PairwiseScore.gapRuns r = 0 <-> PairwiseScore.gaps r = 0).
Proof.
  exact (pairwise_counts_invariant constructor "a-cgt--T" "A-GGTAAC" eq_refl).
Defined.

Lemma all_gap_columns_scan this seq1 : forall seq2 st,
  String.length seq1 = String.length seq2 ->
  all_gap_columns seq1 seq2 = true ->
  s_gaps (scan this seq1 seq2 st) = s_gaps st + str_length seq1.
Proof.
  unfold str_length.
  induction seq1 as [|c1 r1 IH]; intros [|c2 r2] st Hlen Hall;
    simpl in *; try discriminate.
  - lia.
  - injection Hlen as Hlen. apply andb_prop in Hall as [Hcol Hrest].
    rewrite (IH r2 _ Hlen Hrest). unfold scan_column. rewrite Hcol.
    destruct (s_inGap st); simpl; lia.
Qed.

(** C3: the scorer has no ordinary value for a ratio whose denominator is
    zero.  On sequences of one length it returns a score in which identity is
    NaN when its denominator matches + mismatches + gaps is 0, and similarity
    is NaN when its denominator length - gaps is 0; both denominators are 0
    on an alignment of zero columns, and the second is 0 when every column
    is a gap column. *)
Theorem zero_denominator_is_nan (this : AlignmentScorer.t) (seq1 seq2 : string) :
  String.length seq1 = String.length seq2 ->
  exists r, calculatePairwiseScore this seq1 seq2 = Return r
    /\ (PairwiseScore.matches r + PairwiseScore.mismatches r + PairwiseScore.gaps r = 0 ->
        PairwiseScore.identity r = nan)
    /\ (PairwiseScore.length r - PairwiseScore.gaps r = 0 ->
        PairwiseScore.similarity r = nan)
    /\ (seq1 = "" ->
        PairwiseScore.matches r + PairwiseScore.mismatches r + PairwiseScore.gaps r = 0
        /\ PairwiseScore.length r - PairwiseScore.gaps r = 0)
    /\ (all_gap_columns seq1 seq2 = true ->
        PairwiseScore.length r - PairwiseScore.gaps r = 0).
Proof.
  intros Hlen.
  destruct (calculatePairwiseScore_returns this seq1 seq2 Hlen)
    as (r & Hr & Hm & Hx & Hg & Hruns & Hl & Hid & Hsim).
  destruct (scan_inv_result this seq1 seq2 Hlen) as [? ? ? ? ? ? ?].
  rewrite <- Hm, <- Hx, <- Hg in *.
  exists r. split; [exact Hr|]. repeat split.
  - intros Hzero. rewrite Hid, Hzero.
    replace (PairwiseScore.matches r) with 0 by lia. now vm_compute.
  - intros Hzero. rewrite Hsim, Hzero.
    replace (PairwiseScore.matches r) with 0 by lia. now vm_compute.
  - subst seq1. unfold str_length in *. simpl in *. lia.
  - subst seq1. unfold str_length in *. simpl in *. lia.
  - intros Hall. rewrite Hl, Hg.
    rewrite (all_gap_columns_scan this seq1 seq2 scan_init Hlen Hall). simpl. lia.
Qed.

Lemma zero_denominator_is_nan_witness :
  String.length "--" = String.length "AC"
  /\ exists r, calculatePairwiseScore constructor "--" "AC" = Return r
    /\ PairwiseScore.similarity r = nan.
Proof.
  split; [reflexivity|].
  destruct (zero_denominator_is_nan constructor "--" "AC" eq_refl)
    as (r & Hr & _ & Hsim & _ & Hall).
  exists r. split; [exact Hr|]. apply Hsim, Hall. reflexivity.
Defined.

(** ** Configuration *)

(** C9: [setParameters] sets exactly the fields its argument supplies and
    leaves every other field as it was, for each of the sixteen subsets of
    the four parameters; a fresh scorer holds the DNA defaults 2, -1, -2 and
    -0.5.  (The gap-open penalty is the field [gapPenalty] of the source.) *)
Theorem setParameters_merges (this : AlignmentScorer.t) (params : Params) :
  matchScore (setParameters this params)
    = default (matchScore this) (p_matchScore params)
  /\ mismatchScore (setParameters this params)
    = default (mismatchScore this) (p_mismatchScore params)
  /\ gapPenalty (setParameters this params)
    = default (gapPenalty this) (p_gapPenalty params)
  /\ gapExtensionPenalty (setParameters this params)
    = default (gapExtensionPenalty this) (p_gapExtensionPenalty params)
  /\ matchScore constructor = 2%float
  /\ mismatchScore constructor = (-1)%float
  /\ gapPenalty constructor = (-2)%float
  /\ gapExtensionPenalty constructor = (-0.5)%float.
Proof.
  destruct params as [[a|] [b|] [c|] [d|]]; destruct this; cbn; repeat split.
Qed.

(** ** The quality classifier *)

(** Comparing two binary64 values the other way round gives the opposite
    answer. *)
Lemma SFcompare_antisym (x y : spec_float) :
  SFcompare y x = option_map CompOpp (SFcompare x y).
Proof.
  destruct x as [[|]|[|]| |[|] mx ex], y as [[|]|[|]| |[|] my ey]; try reflexivity;
    cbn; rewrite (Z.compare_antisym ex ey);
    destruct (ex ?= ey)%Z; cbn; try reflexivity;
    rewrite (Pos.compare_cont_antisym mx my Eq); cbn;
    destruct (Pos.compare_cont Eq mx my); reflexivity.
Qed.

Lemma float_ltb_not_leb (x y : float) :
  (x <? y)%float = true -> (y <=? x)%float = false.
Proof.
  rewrite FloatAxioms.ltb_spec, FloatAxioms.leb_spec. unfold SFltb, SFleb.
  rewrite (SFcompare_antisym (Prim2SF x) (Prim2SF y)).
  destruct (SFcompare (Prim2SF x) (Prim2SF y)) as [[| |]|]; cbn; congruence.
Qed.

Lemma float_leb_not_ltb (a x y : float) :
  (a <=? x)%float = true -> (y <=? y)%float = true ->
  (x <? y)%float = false -> (y <=? x)%float = true.
Proof.
  rewrite FloatAxioms.ltb_spec, !FloatAxioms.leb_spec. unfold SFltb, SFleb.
  rewrite (SFcompare_antisym (Prim2SF x) (Prim2SF y)).
  destruct (Prim2SF x) as [[|]|[|]| |[|] mx ex] eqn:Ex;
    destruct (Prim2SF y) as [[|]|[|]| |[|] my ey] eqn:Ey;
    destruct (Prim2SF a) as [[|]|[|]| |[|] ma ea]; cbn; try congruence;
    intros _ _; destruct (ex ?= ey)%Z; cbn; try congruence;
    destruct (Pos.compare_cont Eq mx my); cbn; congruence.
Qed.

(** Below 60 is not at least 80. *)
Lemma float_lt_60_not_ge_80 (x : float) :
  (x <? 60)%float = true -> (80 <=? x)%float = false.
Proof.
  rewrite FloatAxioms.ltb_spec, FloatAxioms.leb_spec. unfold SFltb, SFleb.
  rewrite (SFcompare_antisym (Prim2SF x) (Prim2SF 80)).
  replace (Prim2SF 60) with (S754_finite false 8444249301319680 (-47))
    by (vm_compute; reflexivity).
  replace (Prim2SF 80) with (S754_finite false 5629499534213120 (-46))
    by (vm_compute; reflexivity).
  destruct (Prim2SF x) as [[|]|[|]| |[|] mx ex];
    cbv beta iota delta [SFcompare option_map CompOpp]; try congruence.
  destruct (Z.compare_spec ex (-47)) as [E1|L1|G1],
           (Z.compare_spec ex (-46)) as [E2|L2|G2];
    try lia; try congruence.
Qed.

(** C8: the classifier is total, with inclusive lower bounds.  Every
    percentage at least 80 is Excellent (green, #28a745), every one in
    [60,80) is Good (yellow, #ffc107), every one in [40,60) is Fair (orange,
    #fd7e14), and every other input, NaN among them, is Poor (red, #dc3545);
    80, 60 and 40 themselves fall in the higher tier. *)
Theorem quality_tiers (x : number) :
  ((80 <=? x)%float = true ->
     getQualityLabel x = "Excellent" /\ getQualityColor x = "#28a745")
  /\ ((60 <=? x)%float = true -> (x <? 80)%float = true ->
     getQualityLabel x = "Good" /\ getQualityColor x = "#ffc107")
  /\ ((40 <=? x)%float = true -> (x <? 60)%float = true ->
     getQualityLabel x = "Fair" /\ getQualityColor x = "#fd7e14")
  /\ ((80 <=? x)%float = false ->
      ((60 <=? x) && (x <? 80))%float = false ->
      ((40 <=? x) && (x <? 60))%float = false ->
     getQualityLabel x = "Poor" /\ getQualityColor x = "#dc3545")
  /\ (getQualityLabel 80%float = "Excellent" /\ getQualityColor 80%float = "#28a745")
  /\ (getQualityLabel 60%float = "Good" /\ getQualityColor 60%float = "#ffc107")
  /\ (getQualityLabel 40%float = "Fair" /\ getQualityColor 40%float = "#fd7e14").
Proof.
  unfold getQualityLabel, getQualityColor.
  split; [|split; [|split; [|split]]].
  - intros ->. now split.
  - intros H60 H80. rewrite (float_ltb_not_leb _ _ H80), H60. now split.
  - intros H40 H60.
    rewrite (float_lt_60_not_ge_80 _ H60), (float_ltb_not_leb _ _ H60), H40.
    now split.
  - intros N80 N60 N40.
    assert (L40 : (40 <=? x)%float = false).
    { destruct (40 <=? x)%float eqn:E40; [|reflexivity]. simpl in N40.
      pose proof (float_leb_not_ltb 40 x 60 E40 eq_refl N40) as E60.
      rewrite E60 in N60. simpl in N60.
      pose proof (float_leb_not_ltb 40 x 80 E40 eq_refl N60) as E80.
      congruence. }
    assert (L60 : (60 <=? x)%float = false).
    { destruct (60 <=? x)%float eqn:E60; [|reflexivity]. simpl in N60.
      pose proof (float_leb_not_ltb 60 x 80 E60 eq_refl N60). congruence. }
    rewrite N80, L60, L40. now split.
  - repeat split.
Qed.

Lemma quality_tiers_witness :
  (60 <=? 65)%float = true /\ (65 <? 80)%float = true
  /\ getQualityLabel 65%float = "Good" /\ getQualityColor 65%float = "#ffc107".
Proof.
  assert (H60 : (60 <=? 65)%float = true) by reflexivity.
  assert (H80 : (65 <? 80)%float = true) by reflexivity.
  split; [exact H60|]. split; [exact H80|].
  exact (proj1 (proj2 (quality_tiers 65%float)) H60 H80).
Defined.

(** ** Loops *)

(** The rule of a counted loop whose body does not throw: an invariant that
    holds at the start and is kept by every round holds at the end. *)
Lemma for_loop_rule {S : Type} (I : nat -> S -> Prop)
    (body : nat -> S -> completion S) (count : nat) : forall (start : nat) (s : S),
  I start s ->
  (forall i s, (start <= i < start + count)%nat -> I i s ->
     exists s', body i s = Return s' /\ I (Datatypes.S i) s') ->
  exists s', for_loop start count body s = Return s' /\ I (start + count)%nat s'.
Proof.
  induction count as [|k IH]; intros start s Hinit Hstep; simpl.
  - exists s. rewrite Nat.add_0_r. now split.
  - destruct (Hstep start s ltac:(lia) Hinit) as (s1 & Hbody & H1).
    rewrite Hbody. simpl.
    destruct (IH (Datatypes.S start) s1 H1) as (s2 & Hloop & H2).
    { intros i t Hi. apply Hstep. lia. }
    exists s2. split; [exact Hloop|].
    now replace (start + Datatypes.S k)%nat with (Datatypes.S start + k)%nat by lia.
Qed.

Lemma bind_Return {A B : Type} (a : A) (k : A -> completion B) :
  (Return a ≫= k) = k a.
Proof. reflexivity. Qed.

Lemma check_length_ok (n : nat) (s : SequenceRecord.t) :
  String.length (SequenceRecord.sequence s) = n ->
  check_length (Z.of_nat n) s tt = Return tt.
Proof.
  intros Hs. unfold check_length, str_length. now rewrite Hs, Z.eqb_refl.
Qed.

Lemma check_length_fails (n : nat) (s : SequenceRecord.t) :
  String.length (SequenceRecord.sequence s) <> n ->
  check_length (Z.of_nat n) s tt = Throw (Error MSG_MSA_LENGTH).
Proof.
  intros Hs. unfold check_length, str_length.
  destruct (Z.eqb_spec (Z.of_nat (String.length (SequenceRecord.sequence s)))
                       (Z.of_nat n)) as [Heq|Hne]; [lia | reflexivity].
Qed.

(** The up-front length check passes on records of length [n] and throws
    the aggregator's length error on any other list. *)
Lemma for_of_check_length_ok (n : nat) (seqs : list SequenceRecord.t) :
  Forall (fun s => String.length (SequenceRecord.sequence s) = n) seqs ->
  for_of seqs (check_length (Z.of_nat n)) tt = Return tt.
Proof.
  induction 1 as [|s r Hs _ IH]; simpl; [reflexivity|].
  rewrite (check_length_ok _ _ Hs), bind_Return. exact IH.
Qed.

Lemma for_of_check_length_fails (n : nat) (seqs : list SequenceRecord.t) :
  ~ Forall (fun s => String.length (SequenceRecord.sequence s) = n) seqs ->
  for_of seqs (check_length (Z.of_nat n)) tt = Throw (Error MSG_MSA_LENGTH).
Proof.
  induction seqs as [|s r IH]; intros Hnot; simpl.
  - destruct Hnot. constructor.
  - destruct (decide (String.length (SequenceRecord.sequence s) = n)) as [Heq|Hne].
    + rewrite (check_length_ok _ _ Heq), bind_Return.
      apply IH. intros Hr. apply Hnot. now constructor.
    + now rewrite (check_length_fails _ _ Hne).
Qed.

Lemma uniform_length_Forall (seqs : list SequenceRecord.t) :
  uniform_length seqs <->
  Forall (fun s => String.length (SequenceRecord.sequence s) = alignment_length seqs) seqs.
Proof.
  destruct seqs as [|first rest]; simpl.
  - split; [constructor | intros _ a b Ha; inversion Ha].
  - rewrite Forall_forall. split.
    + intros Hu s Hs. apply Hu; [exact Hs | left].
    + intros Hall a b Ha Hb. now rewrite (Hall a Ha), (Hall b Hb).
Qed.

(** ** The MSA aggregator: preconditions *)

(** C5: with fewer than 2 records the aggregator throws its
    minimum-sequences error; with 2 or more records that are not all of one
    length it throws its own length error, which is raised by the check at
    the top and is not the error of the pairwise scorer. *)
Theorem msa_preconditions (this : AlignmentScorer.t) (seqs : list SequenceRecord.t) :
  ((length seqs < 2)%nat ->
     calculateMSAStats this seqs = Throw (Error MSG_MSA_MINIMUM)
     /\ error_kind (Error MSG_MSA_MINIMUM) = MinimumSequences)
  /\ ((2 <= length seqs)%nat -> ~ uniform_length seqs ->
     calculateMSAStats this seqs = Throw (Error MSG_MSA_LENGTH)
     /\ error_kind (Error MSG_MSA_LENGTH) = LengthMismatch
     /\ MSG_MSA_LENGTH <> MSG_PAIR_LENGTH).
Proof.
  split.
  - intros Hlt. split; [|reflexivity]. unfold calculateMSAStats.
    destruct (Nat.ltb_spec (length seqs) 2) as [_|Hge]; [reflexivity | lia].
  - intros Hge Hnot. split; [|split; [reflexivity | discriminate]].
    unfold calculateMSAStats.
    destruct (Nat.ltb_spec (length seqs) 2) as [Hlt|_]; [lia|].
    destruct seqs as [|first rest]; [simpl in Hge; lia|].
    rewrite uniform_length_Forall in Hnot. simpl in Hnot.
    change ((first :: rest) !! 0%nat) with (Some first).
    cbv beta iota.
    now rewrite (for_of_check_length_fails _ _ Hnot).
Qed.

Lemma msa_preconditions_witness :
  (length [SequenceRecord.mk "a" "ACGT"] < 2)%nat
  /\ calculateMSAStats constructor [SequenceRecord.mk "a" "ACGT"]
     = Throw (Error MSG_MSA_MINIMUM)
  /\ (2 <= length [SequenceRecord.mk "a" "ACGT"; SequenceRecord.mk "b" "ACG"])%nat
  /\ ~ uniform_length [SequenceRecord.mk "a" "ACGT"; SequenceRecord.mk "b" "ACG"]
  /\ calculateMSAStats constructor
       [SequenceRecord.mk "a" "ACGT"; SequenceRecord.mk "b" "ACG"]
     = Throw (Error MSG_MSA_LENGTH).
Proof.
  assert (H1 : (length [SequenceRecord.mk "a" "ACGT"] < 2)%nat) by (simpl; lia).
  assert (H2 : (2 <= length [SequenceRecord.mk "a" "ACGT";
                             SequenceRecord.mk "b" "ACG"])%nat) by (simpl; lia).
  assert (H3 : ~ uniform_length [SequenceRecord.mk "a" "ACGT";
                                 SequenceRecord.mk "b" "ACG"]).
  { intros Hu.
    specialize (Hu (SequenceRecord.mk "a" "ACGT") (SequenceRecord.mk "b" "ACG")).
    simpl in Hu. assert (4 = 3)%nat as E; [|discriminate E].
    apply Hu; [left | right; left]. }
  split; [exact H1|].
  split; [exact (proj1 (proj1 (msa_preconditions constructor _) H1))|].
  split; [exact H2|]. split; [exact H3|].
  exact (proj1 (proj2 (msa_preconditions constructor _) H2 H3)).
Defined.

(** ** The MSA aggregator: conservation *)

Lemma elem_of_uniqueChars (chars : list ascii) (c : ascii) :
  c ∈ uniqueChars chars <-> c <> gap /\ c ∈ chars.
Proof.
  unfold uniqueChars. now rewrite elem_of_list_to_set, list_elem_of_filter.
Qed.

(** The test of the source on a column: one distinct non-gap character. *)
Lemma is_conserved_spec (chars : list ascii) :
  is_conserved chars = true <->
  exists c, (c <> gap /\ c ∈ chars)
            /\ forall c', (c' <> gap /\ c' ∈ chars) -> c' = c.
Proof.
  unfold is_conserved.
  rewrite andb_true_iff, negb_true_iff, bool_decide_eq_true, bool_decide_eq_false.
  split.
  - intros [Hsize _]. destruct (size_1_elem_of _ Hsize) as [c Hc].
    exists c. split.
    + apply elem_of_uniqueChars. rewrite Hc. now apply elem_of_singleton.
    + intros c' Hc'. apply elem_of_uniqueChars in Hc'. rewrite Hc in Hc'.
      now apply elem_of_singleton in Hc'.
  - intros (c & Hc & Honly). split.
    + assert (Heq : uniqueChars chars ≡ {[ c ]}).
      { intros c'. rewrite elem_of_uniqueChars, elem_of_singleton. split.
        - apply Honly.
        - now intros ->. }
      rewrite Heq. apply size_singleton.
    + rewrite elem_of_uniqueChars. now intros [Hne _].
Qed.

Lemma charAt_in_range (s : string) : forall p : nat,
  (p < String.length s)%nat -> exists c, charAt s p = Some c.
Proof.
  unfold charAt. induction s as [|c r IH]; intros p Hp; simpl in *; [lia|].
  destruct p as [|p]; [now exists c|]. apply IH. lia.
Qed.

Lemma char_at_in_range (p : nat) (s : SequenceRecord.t) (c0 : ascii) :
  charAt (SequenceRecord.sequence s) p = Some c0 ->
  char_at p s = Return (toUpperCase c0).
Proof. intros H. unfold char_at. now rewrite H. Qed.

(** Inside the alignment the column read does not throw, and reads the
    normalized characters of column [p]. *)
Lemma map_throwing_char_at (p : nat) (seqs : list SequenceRecord.t) :
  Forall (fun s => (p < String.length (SequenceRecord.sequence s))%nat) seqs ->
  exists chars, map_throwing (char_at p) seqs = Return chars
    /\ forall c, c ∈ chars <->
         exists s c0, s ∈ seqs /\ charAt (SequenceRecord.sequence s) p = Some c0
                      /\ toUpperCase c0 = c.
Proof.
  induction 1 as [|s r Hs _ (chars & Hmap & Hchars)]; simpl.
  - exists []. split; [reflexivity|]. intros c. split.
    + intros Hc. inversion Hc.
    + intros (s & c0 & Hin & _). inversion Hin.
  - destruct (charAt_in_range _ _ Hs) as [c0 Hc0].
    rewrite (char_at_in_range _ _ _ Hc0), bind_Return, Hmap, bind_Return.
    exists (toUpperCase c0 :: chars). split; [reflexivity|].
    intros c. rewrite elem_of_cons, Hchars. split.
    + intros [->|(s' & c1 & Hin & Hget & Hup)].
      * exists s, c0. repeat split; [left | exact Hc0].
      * exists s', c1. repeat split; [now right | exact Hget | exact Hup].
    + intros (s' & c1 & Hin & Hget & Hup). apply elem_of_cons in Hin as [->|Hin].
      * left. rewrite Hc0 in Hget. injection Hget as <-. now symmetry.
      * right. now exists s', c1.
Qed.

(** What the conservation loop has counted before column [p]: the
    conserved columns below [p]. *)
Lemma conservation_loop (seqs : list SequenceRecord.t) (n : nat) :
  Forall (fun s => String.length (SequenceRecord.sequence s) = n) seqs ->
  exists conserved cols,
    for_loop 0 n (conservation_body seqs) 0 = Return conserved
    /\ NoDup cols
    /\ (forall q, q ∈ cols <-> (q < n)%nat /\ one_nongap_char seqs q)
    /\ conserved = Z.of_nat (length cols).
Proof.
  intros Hlen.
  destruct (for_loop_rule
    (fun p acc => exists cols, NoDup cols
       /\ (forall q, q ∈ cols <-> (q < p)%nat /\ one_nongap_char seqs q)
       /\ acc = Z.of_nat (length cols))
    (conservation_body seqs) n 0%nat 0) as (conserved & Hloop & cols & Hcols).
  - exists []. split; [constructor|]. split; [|reflexivity].
    intros q. split; [intros Hq; inversion Hq | lia].
  - intros p acc Hp (cols & Hnd & Hmem & ->).
    destruct (map_throwing_char_at p seqs) as (chars & Hmap & Hchars).
    { eapply Forall_impl; [exact Hlen|]. simpl. intros s ->. lia. }
    unfold conservation_body. rewrite Hmap. simpl.
    assert (Hone : is_conserved chars = true <-> one_nongap_char seqs p).
    { rewrite is_conserved_spec. unfold one_nongap_char, nongap_at.
      split; intros (c & Hc & Honly); exists c.
      - split; [now rewrite <- Hchars|]. intros c'. rewrite <- Hchars. apply Honly.
      - split; [now rewrite Hchars|]. intros c'. rewrite Hchars. apply Honly. }
    destruct (is_conserved chars) eqn:Econs; eexists; (split; [reflexivity|]).
    + exists (cols ++ [p]). split; [|split].
      * apply NoDup_app. split; [exact Hnd|]. split; [|apply NoDup_singleton].
        intros q Hq Hqp. apply list_elem_of_singleton in Hqp. subst q.
        apply Hmem in Hq. lia.
      * intros q. rewrite elem_of_app, list_elem_of_singleton, Hmem. split.
        -- intros [[Hlt Hq]| ->]; [split; [lia | exact Hq]|].
           split; [lia | now apply Hone].
        -- intros [Hlt Hq]. destruct (decide (q = p)) as [->|Hne];
             [now right | left; split; [lia | exact Hq]].
      * rewrite length_app. simpl. lia.
    + exists cols. split; [exact Hnd|]. split; [|reflexivity].
      intros q. rewrite Hmem. split.
      * intros [Hlt Hq]. split; [lia | exact Hq].
      * intros [Hlt Hq]. split; [|exact Hq].
        destruct (decide (q = p)) as [->|Hne]; [|lia].
        apply Hone in Hq. congruence.
  - exists conserved, cols. now rewrite Nat.add_0_l in Hcols.
Qed.

(** ** The MSA aggregator: the pairwise loops *)

Lemma pair_rows_S (n k : nat) :
  pair_rows n (S k) = pair_rows n k ++ map (pair k) (seq (S k) (n - S k)).
Proof.
  unfold pair_rows. rewrite seq_S, flat_map_app. simpl. now rewrite app_nil_r.
Qed.

(** Row [i] of the pairwise loops: the inner loop appends the scores of
    the pairs [(i, j)], [j] from [i + 1] to the end. *)
Lemma pair_loop_inner (this : AlignmentScorer.t) (seqs : list SequenceRecord.t)
    (i : nat) (done : list (nat * nat)) (st : PairState) :
  uniform_length seqs ->
  (i < length seqs)%nat ->
  Forall2 (pair_scored this seqs) done (st_pairwiseScores st) ->
  exists st',
    for_loop (S i) (length seqs - S i) (pair_body this seqs i) st = Return st'
    /\ Forall2 (pair_scored this seqs)
         (done ++ map (pair i) (seq (S i) (length seqs - S i)))
         (st_pairwiseScores st').
Proof.
  intros Hu Hi Hdone.
  destruct (for_loop_rule
    (fun j t => Forall2 (pair_scored this seqs)
                  (done ++ map (pair i) (seq (S i) (j - S i)))
                  (st_pairwiseScores t))
    (pair_body this seqs i) (length seqs - S i) (S i) st) as (st' & Hloop & Hst').
  - rewrite Nat.sub_diag. simpl. now rewrite app_nil_r.
  - intros j t Hj Hinv.
    destruct (lookup_lt_is_Some_2 seqs i Hi) as [si Hsi].
    destruct (lookup_lt_is_Some_2 seqs j ltac:(lia)) as [sj Hsj].
    assert (Hlen : String.length (SequenceRecord.sequence si)
                   = String.length (SequenceRecord.sequence sj)).
    { apply Hu; eapply list_elem_of_lookup_2; eassumption. }
    destruct (calculatePairwiseScore_returns this _ _ Hlen) as (r & Hr & _).
    unfold pair_body. rewrite Hsi, Hsj, Hr. simpl.
    eexists. split; [reflexivity|]. simpl.
    replace (j - i)%nat with (S (j - S i)) by lia.
    rewrite seq_S, map_app, app_assoc. simpl.
    apply Forall2_app; [exact Hinv|].
    constructor; [|constructor].
    exists si, sj. cbn [fst snd].
    replace (S (i + (j - S i)))%nat with j by lia. repeat split; assumption.
  - exists st'. split; [exact Hloop|].
    now replace (S i + (length seqs - S i) - S i)%nat
      with (length seqs - S i)%nat in Hst' by lia.
Qed.

(** The two loops together append one score per pair, row after row. *)
Lemma pair_loop_outer (this : AlignmentScorer.t) (seqs : list SequenceRecord.t)
    (st : PairState) :
  uniform_length seqs ->
  st_pairwiseScores st = [] ->
  exists st',
    for_loop 0 (length seqs)
      (fun i => for_loop (S i) (length seqs - S i) (pair_body this seqs i)) st
    = Return st'
    /\ Forall2 (pair_scored this seqs) (pair_rows (length seqs) (length seqs))
         (st_pairwiseScores st').
Proof.
  intros Hu Hnil.
  destruct (for_loop_rule
    (fun i t => Forall2 (pair_scored this seqs) (pair_rows (length seqs) i)
                  (st_pairwiseScores t))
    (fun i => for_loop (S i) (length seqs - S i) (pair_body this seqs i))
    (length seqs) 0%nat st) as (st' & Hloop & Hst').
  - rewrite Hnil. constructor.
  - intros i t Hi Hinv.
    destruct (pair_loop_inner this seqs i _ t Hu ltac:(lia) Hinv) as (t' & Ht & Hall).
    exists t'. split; [exact Ht|]. now rewrite pair_rows_S.
  - exists st'. now split.
Qed.

(** The rows of the nested loops are the index pairs in ascending order. *)
Lemma filter_lt_seq (i n : nat) :
  List.filter (fun j => (i <? j)%nat) (seq 0 n) = seq (S i) (n - S i).
Proof.
  induction n as [|n IH]; [reflexivity|].
  rewrite seq_S, List.filter_app, IH. cbn [List.filter Nat.add].
  destruct (Nat.ltb_spec i n) as [Hlt|Hge].
  - replace (S n - S i)%nat with (S (n - S i)) by lia.
    rewrite seq_S. now replace (S i + (n - S i))%nat with n by lia.
  - replace (n - S i)%nat with 0%nat by lia.
    now replace (S n - S i)%nat with 0%nat by lia.
Qed.

Lemma filter_pairs_row (i : nat) (l : list nat) :
  List.filter (fun ij : nat * nat => (fst ij <? snd ij)%nat) (map (pair i) l)
  = map (pair i) (List.filter (fun j => (i <? j)%nat) l).
Proof.
  induction l as [|j l IH]; simpl; [reflexivity|].
  destruct (i <? j)%nat; simpl; now rewrite IH.
Qed.

Lemma filter_pairs_rows (n : nat) (l : list nat) :
  List.filter (fun ij : nat * nat => (fst ij <? snd ij)%nat) (list_prod l (seq 0 n))
  = flat_map (fun i => map (pair i) (seq (S i) (n - S i))) l.
Proof.
  induction l as [|i l IH]; simpl; [reflexivity|].
  now rewrite List.filter_app, IH, filter_pairs_row, filter_lt_seq.
Qed.

Lemma index_pairs_rows (n : nat) : index_pairs n = pair_rows n n.
Proof. apply filter_pairs_rows. Qed.

Lemma pair_rows_count (n : nat) : forall k a : nat,
  (a + k = n)%nat ->
  (2 * length (flat_map (fun i => map (pair i) (seq (S i) (n - S i))) (seq a k))
   = k * (k - 1))%nat.
Proof.
  induction k as [|k IH]; intros a Hak; simpl; [reflexivity|].
  rewrite length_app, length_map, length_seq.
  specialize (IH (S a) ltac:(lia)). nia.
Qed.

Lemma index_pairs_length (n : nat) : length (index_pairs n) = (n * (n - 1) / 2)%nat.
Proof.
  rewrite index_pairs_rows. unfold pair_rows.
  pose proof (pair_rows_count n n 0%nat eq_refl) as H.
  apply Nat.div_unique_exact; lia.
Qed.

Lemma index_pairs_elem (n i j : nat) :
  (i, j) ∈ index_pairs n <-> (i < j < n)%nat.
Proof.
  unfold index_pairs.
  rewrite list_elem_of_In, List.filter_In, in_prod_iff, !in_seq. simpl.
  rewrite Nat.ltb_lt. lia.
Qed.

(** ** The MSA aggregator on a valid alignment *)

Lemma row_ascending (i start count : nat) :
  StronglySorted pair_before (map (pair i) (seq start count)).
Proof.
  revert start. induction count as [|k IH]; intros start; simpl; constructor.
  - apply IH.
  - apply Forall_forall. intros [a b] Hab.
    apply list_elem_of_fmap in Hab as (j & [= -> ->] & Hj).
    apply elem_of_seq in Hj. right. simpl. lia.
Qed.

Lemma pair_rows_first (n k : nat) (ij : nat * nat) :
  ij ∈ pair_rows n k -> (fst ij < k)%nat.
Proof.
  induction k as [|k IH]; [intros H; inversion H|].
  rewrite pair_rows_S, elem_of_app. intros [H|H].
  - specialize (IH H). lia.
  - apply list_elem_of_fmap in H as (j & -> & _). simpl. lia.
Qed.

Lemma pair_rows_ascending (n k : nat) : StronglySorted pair_before (pair_rows n k).
Proof.
  induction k as [|k IH]; [constructor|].
  rewrite pair_rows_S. apply StronglySorted_app_2; [|exact IH|apply row_ascending].
  intros a b Ha Hb. apply pair_rows_first in Ha.
  apply list_elem_of_fmap in Hb as (j & -> & _). left. simpl. lia.
Qed.

Lemma index_pairs_ascending (n : nat) : StronglySorted pair_before (index_pairs n).
Proof. rewrite index_pairs_rows. apply pair_rows_ascending. Qed.

Lemma calculateMSAStats_valid (this : AlignmentScorer.t) (seqs : list SequenceRecord.t) :
  valid_alignment seqs ->
  exists stats cols, calculateMSAStats this seqs = Return stats
    /\ NoDup cols
    /\ (forall p, p ∈ cols <->
          (p < alignment_length seqs)%nat /\ one_nongap_char seqs p)
    /\ MSAStats.conservedPositions stats = Z.of_nat (length cols)
    /\ Forall2 (pair_scored this seqs) (index_pairs (length seqs))
         (MSAStats.pairwiseScores stats)
    /\ MSAStats.totalPairs stats = Z.of_nat (length (MSAStats.pairwiseScores stats))
    /\ MSAStats.numSequences stats = Z.of_nat (length seqs)
    /\ MSAStats.alignmentLength stats = Z.of_nat (alignment_length seqs).
Proof.
  intros [Hge Hu].
  pose proof (proj1 (uniform_length_Forall seqs) Hu) as Hall.
  destruct (conservation_loop seqs _ Hall) as (conserved & cols & Hcons & Hnd & Hmem & Hcount).
  destruct (pair_loop_outer this seqs
              {| st_pairwiseScores := []; st_totalScore := 0%float |} Hu eq_refl)
    as (pairs & Hpairs & Hscored).
  unfold calculateMSAStats.
  destruct (Nat.ltb_spec (length seqs) 2) as [Hlt|_]; [lia|].
  destruct seqs as [|first rest]; [simpl in Hge; lia|].
  change ((first :: rest) !! 0%nat) with (Some first). cbv beta iota.
  simpl alignment_length in *.
  rewrite (for_of_check_length_ok _ _ Hall), bind_Return.
  rewrite Hcons, bind_Return, Hpairs, bind_Return.
  eexists. exists cols. split; [reflexivity|]. simpl.
  rewrite index_pairs_rows.
  split; [exact Hnd|]. split; [exact Hmem|]. split; [exact Hcount|].
  split; [exact Hscored|]. repeat split.
Qed.

Lemma letter_pair_upper (lo up : ascii) :
  letter_pair lo up ->
  toUpperCase lo = up /\ toUpperCase up = up /\ up <> gap.
Proof.
  intros [Hlo ->].
  destruct lo as [[] [] [] [] [] [] [] []]; vm_compute in Hlo;
    try (exfalso; lia); repeat split; discriminate.
Qed.

(** C2: on a valid alignment the aggregator counts as conserved exactly the
    columns whose set of distinct case-normalized non-gap characters has one
    member.  So a column where every record holds either the gap or one and
    the same character, and some record holds that character, is counted;
    so is a column that holds one letter in lower and in upper case, with
    or without gaps; a column of gaps only is not. *)
Theorem conserved_columns (this : AlignmentScorer.t) (seqs : list SequenceRecord.t) :
  valid_alignment seqs ->
  exists stats cols, calculateMSAStats this seqs = Return stats
    /\ MSAStats.conservedPositions stats = Z.of_nat (length cols)
    /\ NoDup cols
    /\ (forall p, p ∈ cols <->
          (p < alignment_length seqs)%nat /\ one_nongap_char seqs p)
    /\ (forall p c, (p < alignment_length seqs)%nat -> c <> gap ->
          (exists s c0, s ∈ seqs /\ charAt (SequenceRecord.sequence s) p = Some c0
                        /\ toUpperCase c0 = c) ->
          (forall s c0, s ∈ seqs -> charAt (SequenceRecord.sequence s) p = Some c0 ->
                        toUpperCase c0 = c \/ toUpperCase c0 = gap) ->
          p ∈ cols)
    /\ (forall p,
          (forall s c0, s ∈ seqs -> charAt (SequenceRecord.sequence s) p = Some c0 ->
                        toUpperCase c0 = gap) ->
          p ∉ cols)
    /\ (forall p lo up, (p < alignment_length seqs)%nat -> letter_pair lo up ->
          (exists s c0, s ∈ seqs /\ charAt (SequenceRecord.sequence s) p = Some c0
                        /\ (c0 = lo \/ c0 = up)) ->
          (forall s c0, s ∈ seqs -> charAt (SequenceRecord.sequence s) p = Some c0 ->
                        c0 = lo \/ c0 = up \/ c0 = gap) ->
          p ∈ cols)
    /\ (forall p,
          (forall s c0, s ∈ seqs -> charAt (SequenceRecord.sequence s) p = Some c0 ->
                        c0 = gap) ->
          p ∉ cols).
Proof.
  intros Hvalid.
  destruct (calculateMSAStats_valid this seqs Hvalid)
    as (stats & cols & Hret & Hnd & Hmem & Hcount & _).
  exists stats, cols.
  split; [exact Hret|]. split; [exact Hcount|]. split; [exact Hnd|].
  split; [exact Hmem|].
  assert (Hone : forall p c, (p < alignment_length seqs)%nat -> c <> gap ->
            (exists s c0, s ∈ seqs /\ charAt (SequenceRecord.sequence s) p = Some c0
                          /\ toUpperCase c0 = c) ->
            (forall s c0, s ∈ seqs -> charAt (SequenceRecord.sequence s) p = Some c0 ->
                          toUpperCase c0 = c \/ toUpperCase c0 = gap) ->
            p ∈ cols).
  { intros p c Hp Hc Hsome Honly. apply Hmem. split; [exact Hp|].
    exists c. split; [now split|].
    intros c' (Hc' & s & c0 & Hs & Hget & Hup).
    destruct (Honly s c0 Hs Hget) as [E|E]; congruence. }
  assert (Hnone : forall p,
            (forall s c0, s ∈ seqs -> charAt (SequenceRecord.sequence s) p = Some c0 ->
                          toUpperCase c0 = gap) ->
            p ∉ cols).
  { intros p Hgaps Hin.
    apply Hmem in Hin as [_ (c & (Hc & s & c0 & Hs & Hget & Hup) & _)].
    rewrite (Hgaps s c0 Hs Hget) in Hup. congruence. }
  split; [exact Hone|]. split; [exact Hnone|]. split.
  - intros p lo up Hp Hpair (s & c0 & Hs & Hget & Hc0) Honly.
    destruct (letter_pair_upper lo up Hpair) as (Hlo & Hup & Hne).
    apply (Hone p up Hp Hne).
    + exists s, c0. split; [exact Hs|]. split; [exact Hget|].
      destruct Hc0 as [-> | ->]; assumption.
    + intros s' c1 Hs' Hget'.
      destruct (Honly s' c1 Hs' Hget') as [-> | [-> | ->]];
        [now left | now left | now right].
  - intros p Hgaps. apply Hnone. intros s c0 Hs Hget.
    now rewrite (Hgaps s c0 Hs Hget).
Qed.

Lemma example_alignment_valid : valid_alignment example_alignment.
Proof.
  split; [simpl; lia|]. apply uniform_length_Forall. repeat constructor.
Qed.

Lemma example_column_0 (s : SequenceRecord.t) (c0 : ascii) :
  s ∈ example_alignment -> charAt (SequenceRecord.sequence s) 0 = Some c0 ->
  c0 = "a"%char \/ c0 = "A"%char \/ c0 = gap.
Proof.
  intros Hs Hget. apply list_elem_of_In in Hs.
  destruct Hs as [<-|[<-|[<-|[]]]]; injection Hget as <-; auto.
Qed.

Lemma conserved_columns_witness :
  valid_alignment example_alignment
  /\ exists stats cols, calculateMSAStats constructor example_alignment = Return stats
       /\ MSAStats.conservedPositions stats = Z.of_nat (length cols)
       /\ (forall p, p ∈ cols <->
             (p < alignment_length example_alignment)%nat
             /\ one_nongap_char example_alignment p)
       /\ 0%nat ∈ cols
       /\ MSAStats.conservedPositions stats = 4.
Proof.
  split; [exact example_alignment_valid|].
  destruct (conserved_columns constructor example_alignment example_alignment_valid)
    as (stats & cols & Hret & Hcount & _ & Hmem & _ & _ & Hcase & _).
  exists stats, cols. split; [exact Hret|]. split; [exact Hcount|].
  split; [exact Hmem|]. split.
  - apply (Hcase 0%nat "a"%char "A"%char).
    + simpl. lia.
    + split; [left; vm_compute; lia | reflexivity].
    + exists (SequenceRecord.mk "b" "ac-g-"), "a"%char.
      split; [right; left|]. split; [reflexivity | now left].
    + exact example_column_0.
  - assert (Hval : calculateMSAStats constructor example_alignment
                   = Return stats) by exact Hret.
    vm_compute in Hval. injection Hval as <-. reflexivity.
Defined.

(** C6: on a valid alignment of N records the aggregator returns statistics
    whose pairwiseScores hold, in this order, the score of the records
    [(i, j)] for every index pair [i < j < N], ascending in [i] and then in
    [j]: N*(N-1)/2 entries, and totalPairs is that number. *)
Theorem pairwise_scores_enumeration
    (this : AlignmentScorer.t) (seqs : list SequenceRecord.t) :
  valid_alignment seqs ->
  exists stats, calculateMSAStats this seqs = Return stats
    /\ Forall2 (pair_scored this seqs) (index_pairs (length seqs))
         (MSAStats.pairwiseScores stats)
    /\ (forall i j, (i, j) ∈ index_pairs (length seqs) <-> (i < j < length seqs)%nat)
    /\ StronglySorted pair_before (index_pairs (length seqs))
    /\ length (MSAStats.pairwiseScores stats)
       = (length seqs * (length seqs - 1) / 2)%nat
    /\ MSAStats.totalPairs stats
       = Z.of_nat (length seqs * (length seqs - 1) / 2)
    /\ MSAStats.totalPairs stats
       = Z.of_nat (length seqs) * (Z.of_nat (length seqs) - 1) / 2.
Proof.
  intros Hvalid.
  destruct (calculateMSAStats_valid this seqs Hvalid)
    as (stats & cols & Hret & _ & _ & _ & Hscored & Htotal & _).
  pose proof (Forall2_length _ _ _ Hscored) as Hlen.
  rewrite index_pairs_length in Hlen.
  exists stats. split; [exact Hret|]. split; [exact Hscored|].
  split; [intros i j; apply index_pairs_elem|].
  split; [apply index_pairs_ascending|].
  split; [now symmetry|]. rewrite Htotal, <- Hlen.
  split; [reflexivity|].
  destruct Hvalid as [Hge _].
  rewrite Nat2Z.inj_div, Nat2Z.inj_mul, Nat2Z.inj_sub by lia. reflexivity.
Qed.

Lemma pairwise_scores_enumeration_witness :
  valid_alignment example_alignment
  /\ exists stats, calculateMSAStats constructor example_alignment = Return stats
       /\ Forall2 (pair_scored constructor example_alignment)
            [(0, 1); (0, 2); (1, 2)]%nat (MSAStats.pairwiseScores stats)
       /\ MSAStats.totalPairs stats = 3.
Proof.
  split; [exact example_alignment_valid|].
  destruct (pairwise_scores_enumeration constructor example_alignment
              example_alignment_valid)
    as (stats & Hret & Hscored & _ & _ & _ & Htotal & _).
  exists stats. split; [exact Hret|]. split; [exact Hscored | exact Htotal].
Defined.

(** ** The FASTA parser *)

Lemma append_cons (c : ascii) (r s : string) :
  String c r +:+ s = String c (r +:+ s).
Proof. reflexivity. Qed.

Lemma append_empty_l (s : string) : "" +:+ s = s.
Proof. reflexivity. Qed.

Lemma append_empty_r (s : string) : s +:+ "" = s.
Proof.
  induction s as [|c r IH]; [reflexivity|]. now rewrite append_cons, IH.
Qed.

Lemma append_assoc (a b c : string) : (a +:+ b) +:+ c = a +:+ (b +:+ c).
Proof.
  induction a as [|x r IH]; [reflexivity|]. now rewrite !append_cons, IH.
Qed.

Lemma is_empty_true (s : string) : is_empty s = true -> s = "".
Proof. destruct s; [reflexivity | discriminate]. Qed.

Lemma strip_spaces_append (a b : string) :
  strip_spaces (a +:+ b) = strip_spaces a +:+ strip_spaces b.
Proof.
  induction a as [|c r IH]; [reflexivity|].
  rewrite append_cons. simpl.
  destruct (is_space c); [exact IH|]. now rewrite append_cons, IH.
Qed.

Lemma strip_spaces_trimStart (s : string) : strip_spaces (trimStart s) = strip_spaces s.
Proof.
  induction s as [|c r IH]; simpl; [reflexivity|].
  destruct (is_space c) eqn:E; [exact IH|]. simpl. now rewrite E.
Qed.

Lemma strip_spaces_trimEnd (s : string) : strip_spaces (trimEnd s) = strip_spaces s.
Proof.
  induction s as [|c r IH]; simpl; [reflexivity|].
  destruct (is_space c) eqn:E; simpl.
  - destruct (is_empty (trimEnd r)) eqn:Er; simpl.
    + apply is_empty_true in Er. rewrite <- IH, Er. reflexivity.
    + now rewrite E.
  - now rewrite E, IH.
Qed.

Lemma strip_spaces_trim (s : string) : strip_spaces (trim s) = strip_spaces s.
Proof. unfold trim. now rewrite strip_spaces_trimEnd, strip_spaces_trimStart. Qed.

Lemma strip_spaces_none (s : string) : has_space s = false -> strip_spaces s = s.
Proof.
  induction s as [|c r IH]; simpl; [reflexivity|].
  intros H. apply orb_false_elim in H as [Hc Hr]. now rewrite Hc, IH.
Qed.

(** A line with no white space inside: trimming it removes all its white
    space. *)
Lemma trim_strips (s : string) : has_space (trim s) = false -> trim s = strip_spaces s.
Proof. intros H. now rewrite <- strip_spaces_trim, strip_spaces_none. Qed.

Lemma joined_trimmed_cons (l : string) (r : list string) :
  joined_trimmed (l :: r) = trim l +:+ joined_trimmed r.
Proof. reflexivity. Qed.

(** What the line loop has built once the remaining [lines] are read. *)
Lemma parse_loop (lines : list string) : forall st : ParseState,
  push_current (fold_left parse_line lines st) =
  match currentSeq st with
  | Some cur =>
      sequences st ++
      {| SequenceRecord.id := SequenceRecord.id cur;
         SequenceRecord.sequence :=
           SequenceRecord.sequence cur +:+ joined_trimmed (record_lines lines) |}
      :: records_of joined_trimmed lines
  | None => sequences st ++ records_of joined_trimmed lines
  end.
Proof.
  induction lines as [|l r IH]; intros [seqs cur].
  - unfold push_current. simpl. destruct cur as [[i q]|]; simpl.
    + now rewrite append_empty_r.
    + now rewrite app_nil_r.
  - cbn [fold_left]. rewrite IH. unfold parse_line, push_current.
    cbn [record_lines records_of sequences currentSeq]. unfold is_header.
    destruct (startsWith_marker (trim l)) eqn:Eh; cbn [sequences currentSeq].
    + unfold joined_trimmed at 3. cbn [map concat_strings].
      unfold header_id. rewrite append_empty_l.
      destruct cur as [[i q]|]; cbn [SequenceRecord.id SequenceRecord.sequence].
      * rewrite append_empty_r, <- app_assoc. reflexivity.
      * reflexivity.
    + destruct cur as [[i q]|]; [|reflexivity].
      destruct (is_empty (trim l)) eqn:Ee;
        cbn [negb sequences currentSeq SequenceRecord.id SequenceRecord.sequence];
        rewrite (joined_trimmed_cons l).
      * apply is_empty_true in Ee. rewrite Ee. reflexivity.
      * rewrite append_assoc. reflexivity.
Qed.

(** The parser reads one record per header line: its id from the header,
    its sequence the trimmed lines up to the next header, joined. *)
Lemma parseFASTA_trimmed (fastaContent : string) :
  parseFASTA fastaContent = records_of joined_trimmed (split_lines fastaContent).
Proof. unfold parseFASTA. now rewrite parse_loop. Qed.

Lemma records_of_length (text : list string -> string) (lines : list string) :
  length (records_of text lines) = length (List.filter is_header lines).
Proof.
  induction lines as [|l r IH]; simpl; [reflexivity|].
  destruct (is_header l); simpl; now rewrite IH.
Qed.

Lemma records_of_ids (text : list string -> string) (lines : list string) :
  map SequenceRecord.id (records_of text lines)
  = map header_id (List.filter is_header lines).
Proof.
  induction lines as [|l r IH]; simpl; [reflexivity|].
  destruct (is_header l); simpl; now rewrite IH.
Qed.

Lemma joined_record_lines (lines : list string) :
  Forall (fun l => is_header l = false -> has_space (trim l) = false) lines ->
  joined_trimmed (record_lines lines) = joined_without_spaces (record_lines lines).
Proof.
  unfold joined_trimmed, joined_without_spaces.
  induction 1 as [|l r Hl _ IH]; simpl; [reflexivity|].
  destruct (is_header l) eqn:Eh; simpl; [reflexivity|].
  now rewrite strip_spaces_append, <- IH, (trim_strips l (Hl eq_refl)).
Qed.

Lemma records_of_well_formed (lines : list string) :
  Forall (fun l => is_header l = false -> has_space (trim l) = false) lines ->
  records_of joined_trimmed lines = records_of joined_without_spaces lines.
Proof.
  induction 1 as [|l r Hl Hr IH]; simpl; [reflexivity|].
  destruct (is_header l); [|exact IH].
  now rewrite IH, (joined_record_lines r Hr).
Qed.

(** A test that decides well-formedness. *)
Lemma well_formed_check (fastaContent : string) :
  forallb (fun l => is_header l || negb (has_space (trim l)))
          (split_lines fastaContent) = true ->
  well_formed fastaContent.
Proof.
  intros H l Hl Hh. rewrite forallb_forall in H.
  apply list_elem_of_In in Hl. specialize (H l Hl).
  rewrite Hh in H. simpl in H. now apply negb_true_iff in H.
Qed.

(** C7: the parser returns one record per header line, in input order,
    with the header's id; on well-formed input each record's sequence is the
    concatenation of its non-header lines with white space removed; input
    with no header line gives the empty list.  The parser is a total
    function: it has no error result. *)
Theorem parseFASTA_records (fastaContent : string) :
  (well_formed fastaContent ->
     parseFASTA fastaContent
     = records_of joined_without_spaces (split_lines fastaContent))
  /\ length (parseFASTA fastaContent)
     = length (List.filter is_header (split_lines fastaContent))
  /\ map SequenceRecord.id (parseFASTA fastaContent)
     = map header_id (List.filter is_header (split_lines fastaContent))
  /\ (List.filter is_header (split_lines fastaContent) = [] ->
     parseFASTA fastaContent = []).
Proof.
  rewrite parseFASTA_trimmed. split; [|split; [|split]].
  - intros Hwf. apply records_of_well_formed, Forall_forall. exact Hwf.
  - apply records_of_length.
  - apply records_of_ids.
  - intros Hnone. apply length_zero_iff_nil.
    now rewrite records_of_length, Hnone.
Qed.

Lemma parseFASTA_records_witness :
  well_formed example_fasta
  /\ parseFASTA example_fasta
     = [SequenceRecord.mk "s1 first" "ACGT"; SequenceRecord.mk "s2" "A-GT"].
Proof.
  assert (Hwf : well_formed example_fasta) by (apply well_formed_check; reflexivity).
  split; [exact Hwf|].
  rewrite (proj1 (parseFASTA_records example_fasta) Hwf). reflexivity.
Defined.

(** * Further properties of the scorer *)

(** ** The pairwise scorer: symmetry and case *)

Lemma scan_column_sym (this : AlignmentScorer.t) (c1 c2 : ascii) (st : ScanState) :
  scan_column this c1 c2 st = scan_column this c2 c1 st.
Proof.
  unfold scan_column.
  rewrite (orb_comm (bool_decide (toUpperCase c1 = gap))).
  destruct (bool_decide (toUpperCase c2 = gap) || bool_decide (toUpperCase c1 = gap));
    [reflexivity|].
  destruct (decide (toUpperCase c1 = toUpperCase c2)) as [E|N].
  - now rewrite !bool_decide_eq_true_2.
  - rewrite !bool_decide_eq_false_2; [reflexivity | congruence | assumption].
Qed.

Lemma scan_sym (this : AlignmentScorer.t) (seq1 : string) : forall seq2 st,
  scan this seq1 seq2 st = scan this seq2 seq1 st.
Proof.
  induction seq1 as [|c1 r1 IH]; intros [|c2 r2] st; simpl; try reflexivity.
  now rewrite scan_column_sym, IH.
Qed.

(** X1: the pairwise scorer is symmetric: swapping the two sequences gives
    the same result, the same error on unequal lengths included. *)
Theorem pairwise_symmetric (this : AlignmentScorer.t) (seq1 seq2 : string) :
  calculatePairwiseScore this seq2 seq1 = calculatePairwiseScore this seq1 seq2.
Proof.
  unfold calculatePairwiseScore. rewrite (Z.eqb_sym (str_length seq2)).
  destruct (Z.eqb_spec (str_length seq1) (str_length seq2)) as [E|N]; simpl;
    [|reflexivity].
  now rewrite scan_sym, E.
Qed.

Lemma toUpperCase_idempotent (c : ascii) :
  toUpperCase (toUpperCase c) = toUpperCase c.
Proof. destruct c as [[] [] [] [] [] [] [] []]; reflexivity. Qed.

Lemma upper_length (s : string) : String.length (upper s) = String.length s.
Proof. induction s as [|c r IH]; simpl; [reflexivity | now rewrite IH]. Qed.

Lemma scan_upper (this : AlignmentScorer.t) (seq1 : string) : forall seq2 st,
  scan this (upper seq1) (upper seq2) st = scan this seq1 seq2 st.
Proof.
  induction seq1 as [|c1 r1 IH]; intros [|c2 r2] st; simpl; try reflexivity.
  rewrite IH. f_equal. unfold scan_column. now rewrite !toUpperCase_idempotent.
Qed.

Lemma calculatePairwiseScore_upper (this : AlignmentScorer.t) (seq1 seq2 : string) :
  calculatePairwiseScore this (upper seq1) (upper seq2)
  = calculatePairwiseScore this seq1 seq2.
Proof.
  unfold calculatePairwiseScore, str_length.
  now rewrite !upper_length, scan_upper.
Qed.

(** X2: the pairwise scorer does not look at letter case: two pairs of
    sequences that agree once upper-cased get the same result. *)
Theorem pairwise_case_insensitive
    (this : AlignmentScorer.t) (seq1 seq1' seq2 seq2' : string) :
  upper seq1 = upper seq1' -> upper seq2 = upper seq2' ->
  calculatePairwiseScore this seq1 seq2 = calculatePairwiseScore this seq1' seq2'.
Proof.
  intros E1 E2.
  rewrite <- (calculatePairwiseScore_upper this seq1 seq2), E1, E2.
  apply calculatePairwiseScore_upper.
Qed.

Lemma pairwise_case_insensitive_witness :
  upper "acG-t" = upper "ACg-T" /\ upper "AcGcT" = upper "aCgCt"
  /\ calculatePairwiseScore constructor "acG-t" "AcGcT"
     = calculatePairwiseScore constructor "ACg-T" "aCgCt".
Proof.
  assert (E1 : upper "acG-t" = upper "ACg-T") by reflexivity.
  assert (E2 : upper "AcGcT" = upper "aCgCt") by reflexivity.
  split; [exact E1|]. split; [exact E2|].
  exact (pairwise_case_insensitive constructor _ _ _ _ E1 E2).
Defined.

(** ** The pairwise scorer: what the counters count *)

Lemma count_kind_cons (k k' : ColumnKind) (ks : list ColumnKind) :
  count_kind k (k' :: ks) = (if bool_decide (k' = k) then 1 else 0) + count_kind k ks.
Proof.
  unfold count_kind. simpl. destruct (bool_decide (k' = k)); simpl; lia.
Qed.

Lemma scan_column_by_kind (this : AlignmentScorer.t) (c1 c2 : ascii) (st : ScanState) :
  match column_kind c1 c2 with
  | GapColumn =>
      s_matches (scan_column this c1 c2 st) = s_matches st
      /\ s_mismatches (scan_column this c1 c2 st) = s_mismatches st
      /\ s_gaps (scan_column this c1 c2 st) = s_gaps st + 1
      /\ s_gapRuns (scan_column this c1 c2 st)
         = s_gapRuns st + (if s_inGap st then 0 else 1)
      /\ s_inGap (scan_column this c1 c2 st) = true
  | MatchColumn =>
      s_matches (scan_column this c1 c2 st) = s_matches st + 1
      /\ s_mismatches (scan_column this c1 c2 st) = s_mismatches st
      /\ s_gaps (scan_column this c1 c2 st) = s_gaps st
      /\ s_gapRuns (scan_column this c1 c2 st) = s_gapRuns st
      /\ s_inGap (scan_column this c1 c2 st) = false
  | MismatchColumn =>
      s_matches (scan_column this c1 c2 st) = s_matches st
      /\ s_mismatches (scan_column this c1 c2 st) = s_mismatches st + 1
      /\ s_gaps (scan_column this c1 c2 st) = s_gaps st
      /\ s_gapRuns (scan_column this c1 c2 st) = s_gapRuns st
      /\ s_inGap (scan_column this c1 c2 st) = false
  end.
Proof.
  unfold column_kind, scan_column.
  destruct (bool_decide (toUpperCase c1 = gap) || bool_decide (toUpperCase c2 = gap)).
  - destruct (s_inGap st) eqn:E; simpl; repeat split; try lia; assumption.
  - destruct (bool_decide (toUpperCase c1 = toUpperCase c2)); simpl; repeat split; lia.
Qed.

(** The loop counters after the scan, from any loop state. *)
Lemma scan_counts (this : AlignmentScorer.t) (seq1 : string) : forall seq2 st,
  s_matches (scan this seq1 seq2 st)
    = s_matches st + count_kind MatchColumn (column_kinds seq1 seq2)
  /\ s_mismatches (scan this seq1 seq2 st)
    = s_mismatches st + count_kind MismatchColumn (column_kinds seq1 seq2)
  /\ s_gaps (scan this seq1 seq2 st)
    = s_gaps st + count_kind GapColumn (column_kinds seq1 seq2)
  /\ s_gapRuns (scan this seq1 seq2 st)
    = s_gapRuns st + gap_runs (column_kinds seq1 seq2)
      - (if s_inGap st
         then match column_kinds seq1 seq2 with GapColumn :: _ => 1 | _ => 0 end
         else 0).
Proof.
  induction seq1 as [|c1 r1 IH]; intros [|c2 r2] st;
    try (simpl; unfold count_kind; simpl; destruct (s_inGap st); repeat split; lia).
  cbn [scan column_kinds].
  destruct (IH r2 (scan_column this c1 c2 st)) as (Hm & Hx & Hg & Hr).
  rewrite Hm, Hx, Hg, Hr, !count_kind_cons. clear Hm Hx Hg Hr IH.
  pose proof (scan_column_by_kind this c1 c2 st) as Hcol.
  destruct (column_kind c1 c2); destruct Hcol as (-> & -> & -> & -> & ->);
    cbn [gap_runs];
    (destruct (column_kinds r1 r2) as [|[| |] ks]);
    destruct (s_inGap st);
    repeat case_bool_decide; try congruence;
    repeat split; lia.
Qed.

Lemma toUpperCase_is_gap (c : ascii) :
  bool_decide (toUpperCase c = gap) = bool_decide (c = gap).
Proof. destruct c as [[] [] [] [] [] [] [] []]; reflexivity. Qed.

Lemma letter_pair_matches (lo up : ascii) :
  letter_pair lo up ->
  column_kind lo up = MatchColumn /\ column_kind up lo = MatchColumn
  /\ column_kind lo lo = MatchColumn /\ column_kind up up = MatchColumn.
Proof.
  intros Hpair. destruct (letter_pair_upper lo up Hpair) as (Hlo & Hup & Hne).
  unfold column_kind. rewrite Hlo, Hup.
  rewrite (bool_decide_eq_false_2 (up = gap) Hne), (bool_decide_eq_true_2 (up = up) eq_refl).
  now repeat split.
Qed.

(** X4: the counters of a returned score count columns: matches the
    columns of two equal non-gap characters, letter case aside; mismatches
    those of two different non-gap characters, gaps the gap columns, and
    gapRuns the maximal runs of consecutive gap columns.  A column of a
    letter and its other-case form is a match column, a column with the gap
    character on either side is a gap column. *)
Theorem pairwise_counts_columns (this : AlignmentScorer.t) (seq1 seq2 : string) :
  String.length seq1 = String.length seq2 ->
  exists r, calculatePairwiseScore this seq1 seq2 = Return r
    /\ PairwiseScore.matches r = count_kind MatchColumn (column_kinds seq1 seq2)
    /\ PairwiseScore.mismatches r = count_kind MismatchColumn (column_kinds seq1 seq2)
    /\ PairwiseScore.gaps r = count_kind GapColumn (column_kinds seq1 seq2)
    /\ PairwiseScore.gapRuns r = gap_runs (column_kinds seq1 seq2)
    /\ (forall lo up, letter_pair lo up ->
          column_kind lo up = MatchColumn /\ column_kind up lo = MatchColumn
          /\ column_kind lo lo = MatchColumn /\ column_kind up up = MatchColumn)
    /\ (forall c, column_kind gap c = GapColumn /\ column_kind c gap = GapColumn)
    /\ (forall c1 c2, column_kind c1 c2 = GapColumn -> c1 = gap \/ c2 = gap).
Proof.
  intros Hlen.
  destruct (calculatePairwiseScore_returns this seq1 seq2 Hlen)
    as (r & Hr & Hm & Hx & Hg & Hruns & _).
  destruct (scan_counts this seq1 seq2 scan_init) as (Cm & Cx & Cg & Cr).
  exists r. rewrite Hm, Hx, Hg, Hruns, Cm, Cx, Cg, Cr. simpl.
  split; [exact Hr|]. split; [lia|]. split; [lia|]. split; [lia|]. split; [lia|].
  split; [exact letter_pair_matches|]. split.
  - intros c. unfold column_kind.
    rewrite (bool_decide_eq_true_2 (toUpperCase gap = gap) eq_refl), orb_true_r.
    now split.
  - intros c1 c2. unfold column_kind. rewrite !toUpperCase_is_gap.
    destruct (bool_decide (c1 = gap)) eqn:E1; [apply bool_decide_eq_true in E1; now left|].
    destruct (bool_decide (c2 = gap)) eqn:E2; [apply bool_decide_eq_true in E2; now right|].
    simpl. destruct (bool_decide (toUpperCase c1 = toUpperCase c2)); discriminate.
Qed.

Lemma pairwise_counts_columns_witness :
  String.length "a-cgt--T" = String.length "A-GGTAAC"
  /\ exists r, calculatePairwiseScore constructor "a-cgt--T" "A-GGTAAC" = Return r
       /\ PairwiseScore.matches r = 3 /\ PairwiseScore.mismatches r = 2
       /\ PairwiseScore.gaps r = 3 /\ PairwiseScore.gapRuns r = 2.
Proof.
  split; [reflexivity|].
  destruct (pairwise_counts_columns constructor "a-cgt--T" "A-GGTAAC" eq_refl)
    as (r & Hr & Hm & Hx & Hg & Hu & _).
  exists r. split; [exact Hr|]. split; [exact Hm|]. split; [exact Hx|].
  split; [exact Hg | exact Hu].
Defined.

(** X3: the scoring parameters bear on the score only: with any two
    parameter sets the scorer gives the same counters, identity, similarity
    and length, and the same error on unequal lengths. *)
Theorem parameters_change_only_the_score
    (this this' : AlignmentScorer.t) (seq1 seq2 : string) :
  forget_score (calculatePairwiseScore this seq1 seq2)
  = forget_score (calculatePairwiseScore this' seq1 seq2).
Proof.
  unfold calculatePairwiseScore.
  destruct (negb (str_length seq1 =? str_length seq2)); [reflexivity|].
  destruct (scan_counts this seq1 seq2 scan_init) as (Hm & Hx & Hg & Hr).
  destruct (scan_counts this' seq1 seq2 scan_init) as (Hm' & Hx' & Hg' & Hr').
  cbn [forget_score PairwiseScore.matches PairwiseScore.mismatches PairwiseScore.gaps
       PairwiseScore.gapRuns PairwiseScore.identity PairwiseScore.similarity
       PairwiseScore.length].
  now rewrite Hm, Hx, Hg, Hr, Hm', Hx', Hg', Hr'.
Qed.

(** ** The pairwise scorer: a sequence against itself *)

Lemma self_column_kinds (s : string) :
  count_kind MismatchColumn (column_kinds s s) = 0
  /\ count_kind GapColumn (column_kinds s s) = gap_count s.
Proof.
  induction s as [|c r [IHx IHg]]; [now split|].
  cbn [column_kinds gap_count]. rewrite !count_kind_cons, IHx, IHg.
  unfold column_kind. rewrite toUpperCase_is_gap, orb_diag.
  rewrite (bool_decide_eq_true_2 (toUpperCase c = toUpperCase c) eq_refl).
  destruct (bool_decide (c = gap)); split; reflexivity.
Qed.

(** X5: a sequence scored against itself has no mismatch: its gap
    characters are the gap columns and every other column is a match. *)
Theorem self_alignment_has_no_mismatch (this : AlignmentScorer.t) (s : string) :
  exists r, calculatePairwiseScore this s s = Return r
    /\ PairwiseScore.mismatches r = 0
    /\ PairwiseScore.gaps r = gap_count s
    /\ PairwiseScore.matches r = Z.of_nat (String.length s) - gap_count s.
Proof.
  destruct (calculatePairwiseScore_returns this s s eq_refl)
    as (r & Hr & Hm & Hx & Hg & _ & _).
  destruct (scan_counts this s s scan_init) as (_ & Cx & Cg & _).
  destruct (self_column_kinds s) as [Kx Kg].
  destruct (scan_inv_result this s s eq_refl) as [_ _ Htotal _ _ _ _].
  unfold str_length in Htotal. simpl in Cx, Cg.
  exists r. split; [exact Hr|]. rewrite Hx, Hg, Hm. lia.
Qed.

(** ** The MSA aggregator: outcomes *)

Lemma calculateMSAStats_too_few (this : AlignmentScorer.t) (seqs : list SequenceRecord.t) :
  (length seqs < 2)%nat ->
  calculateMSAStats this seqs = Throw (Error MSG_MSA_MINIMUM).
Proof.
  intros Hlt. unfold calculateMSAStats.
  destruct (Nat.ltb_spec (length seqs) 2) as [_|Hge]; [reflexivity | lia].
Qed.

Lemma calculateMSAStats_uneven (this : AlignmentScorer.t) (seqs : list SequenceRecord.t) :
  (2 <= length seqs)%nat -> ~ uniform_length seqs ->
  calculateMSAStats this seqs = Throw (Error MSG_MSA_LENGTH).
Proof.
  intros Hge Hnot. unfold calculateMSAStats.
  destruct (Nat.ltb_spec (length seqs) 2) as [Hlt|_]; [lia|].
  destruct seqs as [|first rest]; [simpl in Hge; lia|].
  rewrite uniform_length_Forall in Hnot. simpl in Hnot.
  change ((first :: rest) !! 0%nat) with (Some first). cbv beta iota.
  now rewrite (for_of_check_length_fails _ _ Hnot).
Qed.

(** X6: the aggregator returns statistics exactly on valid alignments (two
    or more records, all of one length), and the only errors it throws are
    its own two: never a TypeError, and never the error of the pairwise
    scorer. *)
Theorem aggregator_outcomes (this : AlignmentScorer.t) (seqs : list SequenceRecord.t) :
  ((exists stats, calculateMSAStats this seqs = Return stats) <-> valid_alignment seqs)
  /\ (forall e, calculateMSAStats this seqs = Throw e ->
        e = Error MSG_MSA_MINIMUM \/ e = Error MSG_MSA_LENGTH).
Proof.
  destruct (decide (length seqs < 2)%nat) as [Hlt|Hge].
  - rewrite (calculateMSAStats_too_few this seqs Hlt). split.
    + split; [intros [stats H]; discriminate | intros [Hge _]; lia].
    + intros e [= <-]. now left.
  - destruct (decide (Forall (fun s => String.length (SequenceRecord.sequence s)
                                       = alignment_length seqs) seqs)) as [Hall|Hnot].
    + assert (Hvalid : valid_alignment seqs).
      { split; [lia | now apply uniform_length_Forall]. }
      destruct (calculateMSAStats_valid this seqs Hvalid) as (stats & cols & Hret & _).
      rewrite Hret. split.
      * split; [intros _; exact Hvalid | intros _; now exists stats].
      * intros e H. discriminate.
    + assert (Hu : ~ uniform_length seqs) by now rewrite uniform_length_Forall.
      rewrite (calculateMSAStats_uneven this seqs ltac:(lia) Hu). split.
      * split; [intros [stats H]; discriminate | intros [_ H]; contradiction].
      * intros e [= <-]. now right.
Qed.

Lemma aggregator_outcomes_witness :
  valid_alignment example_alignment
  /\ exists stats, calculateMSAStats constructor example_alignment = Return stats.
Proof.
  split; [exact example_alignment_valid|].
  exact (proj2 (proj1 (aggregator_outcomes constructor example_alignment))
               example_alignment_valid).
Defined.

(** ** The MSA aggregator: what the statistics hold *)

Lemma NoDup_below_length (cols : list nat) (n : nat) :
  NoDup cols -> (forall p, p ∈ cols -> (p < n)%nat) -> (length cols <= n)%nat.
Proof.
  intros Hnd Hlt.
  replace n with (length (seq 0 n)) at 1 by apply length_seq.
  apply submseteq_length, NoDup_submseteq; [exact Hnd|].
  intros p Hp. apply elem_of_seq. specialize (Hlt p Hp). lia.
Qed.

(** X7: on a valid alignment, numSequences is the number of records,
    alignmentLength is the length of each record's sequence, and
    conservedPositions lies between 0 and alignmentLength. *)
Theorem aggregator_dimensions (this : AlignmentScorer.t) (seqs : list SequenceRecord.t) :
  valid_alignment seqs ->
  exists stats, calculateMSAStats this seqs = Return stats
    /\ MSAStats.numSequences stats = Z.of_nat (length seqs)
    /\ (forall s, s ∈ seqs ->
          MSAStats.alignmentLength stats
          = Z.of_nat (String.length (SequenceRecord.sequence s)))
    /\ 0 <= MSAStats.conservedPositions stats <= MSAStats.alignmentLength stats.
Proof.
  intros Hvalid.
  destruct (calculateMSAStats_valid this seqs Hvalid)
    as (stats & cols & Hret & Hnd & Hmem & Hcount & _ & _ & Hnum & Hlen).
  exists stats. split; [exact Hret|]. split; [exact Hnum|]. split.
  - intros s Hs. rewrite Hlen. f_equal.
    destruct Hvalid as [_ Hu]. apply uniform_length_Forall in Hu.
    rewrite Forall_forall in Hu. now rewrite (Hu s Hs).
  - rewrite Hcount, Hlen.
    pose proof (NoDup_below_length cols (alignment_length seqs) Hnd
                  (fun p Hp => proj1 (proj1 (Hmem p) Hp))).
    lia.
Qed.

Lemma aggregator_dimensions_witness :
  valid_alignment example_alignment
  /\ exists stats, calculateMSAStats constructor example_alignment = Return stats
       /\ MSAStats.numSequences stats = 3
       /\ 0 <= MSAStats.conservedPositions stats <= MSAStats.alignmentLength stats.
Proof.
  split; [exact example_alignment_valid|].
  destruct (aggregator_dimensions constructor example_alignment example_alignment_valid)
    as (stats & Hret & Hnum & _ & Hbounds).
  exists stats. split; [exact Hret|]. split; [exact Hnum | exact Hbounds].
Defined.

Lemma pair_scored_spans (this : AlignmentScorer.t) (seqs : list SequenceRecord.t)
    (ij : nat * nat) (r : PairwiseScore.t) :
  uniform_length seqs -> pair_scored this seqs ij r ->
  PairwiseScore.length r = Z.of_nat (alignment_length seqs)
  /\ PairwiseScore.matches r + PairwiseScore.mismatches r + PairwiseScore.gaps r
     = Z.of_nat (alignment_length seqs)
  /\ 0 <= PairwiseScore.matches r /\ 0 <= PairwiseScore.mismatches r
  /\ 0 <= PairwiseScore.gaps r.
Proof.
  intros Hu (si & sj & Hsi & Hsj & Hcalc).
  apply list_elem_of_lookup_2 in Hsi, Hsj.
  pose proof (Hu si sj Hsi Hsj) as Hlen.
  destruct (calculatePairwiseScore_returns this _ _ Hlen)
    as (r' & Hr' & Hm & Hx & Hg & _ & Hl & _).
  rewrite Hcalc in Hr'. injection Hr' as <-.
  destruct (scan_inv_result this _ _ Hlen) as [? ? ? ? ? ? ?].
  apply uniform_length_Forall in Hu. rewrite Forall_forall in Hu.
  rewrite Hl, Hm, Hx, Hg. unfold str_length in *. rewrite <- (Hu si Hsi).
  repeat split; lia.
Qed.

(** X8: on a valid alignment every entry of pairwiseScores spans the whole
    alignment: its length is alignmentLength, and its matches, mismatches
    and gaps add up to alignmentLength. *)
Theorem aggregator_pairs_span_alignment
    (this : AlignmentScorer.t) (seqs : list SequenceRecord.t) :
  valid_alignment seqs ->
  exists stats, calculateMSAStats this seqs = Return stats
    /\ Forall (fun r =>
          PairwiseScore.length r = MSAStats.alignmentLength stats
          /\ PairwiseScore.matches r + PairwiseScore.mismatches r
             + PairwiseScore.gaps r = MSAStats.alignmentLength stats)
        (MSAStats.pairwiseScores stats).
Proof.
  intros Hvalid.
  destruct (calculateMSAStats_valid this seqs Hvalid)
    as (stats & cols & Hret & _ & _ & _ & Hscored & _ & _ & Hlen).
  exists stats. split; [exact Hret|]. rewrite Hlen.
  destruct Hvalid as [_ Hu].
  induction Hscored as [|ij r ijs rs Hr _ IH]; constructor; [|exact IH].
  destruct (pair_scored_spans this seqs ij r Hu Hr) as (H1 & H2 & _). now split.
Qed.

Lemma aggregator_pairs_span_alignment_witness :
  valid_alignment example_alignment
  /\ exists stats, calculateMSAStats constructor example_alignment = Return stats
       /\ Forall (fun r => PairwiseScore.length r = MSAStats.alignmentLength stats
                          /\ PairwiseScore.matches r + PairwiseScore.mismatches r
                             + PairwiseScore.gaps r = MSAStats.alignmentLength stats)
                 (MSAStats.pairwiseScores stats).
Proof.
  split; [exact example_alignment_valid|].
  exact (aggregator_pairs_span_alignment constructor example_alignment
           example_alignment_valid).
Defined.

(** ** The MSA aggregator: an alignment of zero columns *)

Lemma calculateMSAStats_fields (this : AlignmentScorer.t) (seqs : list SequenceRecord.t) :
  valid_alignment seqs ->
  exists stats, calculateMSAStats this seqs = Return stats
    /\ MSAStats.conservation stats
       = round2 (of_Z (MSAStats.conservedPositions stats)
                 / of_Z (MSAStats.alignmentLength stats) * 100)%float
    /\ MSAStats.averageIdentity stats
       = round2 (fold_left (fun sum ps => sum + PairwiseScore.identity ps)
                           (MSAStats.pairwiseScores stats) 0
                 / of_Z (MSAStats.totalPairs stats))%float.
Proof.
  intros [Hge Hu].
  pose proof (proj1 (uniform_length_Forall seqs) Hu) as Hall.
  destruct (conservation_loop seqs _ Hall) as (conserved & cols & Hcons & _).
  destruct (pair_loop_outer this seqs
              {| st_pairwiseScores := []; st_totalScore := 0%float |} Hu eq_refl)
    as (pairs & Hpairs & _).
  unfold calculateMSAStats.
  destruct (Nat.ltb_spec (length seqs) 2) as [Hlt|_]; [lia|].
  destruct seqs as [|first rest]; [simpl in Hge; lia|].
  change ((first :: rest) !! 0%nat) with (Some first). cbv beta iota.
  simpl alignment_length in *.
  rewrite (for_of_check_length_ok _ _ Hall), bind_Return.
  rewrite Hcons, bind_Return, Hpairs, bind_Return.
  eexists. split; [reflexivity|]. split; reflexivity.
Qed.

Lemma nan_div (x : float) : (nan / x)%float = nan.
Proof.
  apply Prim2SF_inj. rewrite FloatAxioms.div_spec.
  replace (Prim2SF nan) with S754_nan by (vm_compute; reflexivity).
  reflexivity.
Qed.

Lemma fold_identity_nan (l : list PairwiseScore.t) :
  Forall (fun r => PairwiseScore.identity r = nan) l ->
  fold_left (fun sum ps => sum + PairwiseScore.identity ps)%float l nan = nan.
Proof.
  induction 1 as [|r l Hr _ IH]; simpl; [reflexivity|].
  rewrite Hr. exact IH.
Qed.

Lemma zero_column_pair (this : AlignmentScorer.t) (seqs : list SequenceRecord.t)
    (ij : nat * nat) (r : PairwiseScore.t) :
  uniform_length seqs -> alignment_length seqs = 0%nat ->
  pair_scored this seqs ij r -> PairwiseScore.identity r = nan.
Proof.
  intros Hu Hzero Hr.
  destruct (pair_scored_spans this seqs ij r Hu Hr) as (_ & Hsum & Hm & Hx & Hg).
  destruct Hr as (si & sj & Hsi & Hsj & Hcalc).
  apply list_elem_of_lookup_2 in Hsi, Hsj.
  destruct (calculatePairwiseScore_returns this _ _ (Hu si sj Hsi Hsj))
    as (r' & Hr' & _ & _ & _ & _ & _ & Hid & _).
  rewrite Hcalc in Hr'. injection Hr' as <-.
  rewrite Hid, Hsum, Hzero.
  replace (PairwiseScore.matches r) with 0 by lia. now vm_compute.
Qed.

(** X10: a valid alignment of zero columns (every sequence empty) is not
    refused: the aggregator returns statistics whose conservation and
    averageIdentity are NaN, and the classifier rates that averageIdentity
    Poor, in red. *)
Theorem zero_column_alignment (this : AlignmentScorer.t) (seqs : list SequenceRecord.t) :
  valid_alignment seqs -> alignment_length seqs = 0%nat ->
  exists stats, calculateMSAStats this seqs = Return stats
    /\ MSAStats.conservedPositions stats = 0
    /\ MSAStats.conservation stats = nan
    /\ MSAStats.averageIdentity stats = nan
    /\ getQualityLabel (MSAStats.averageIdentity stats) = "Poor"
    /\ getQualityColor (MSAStats.averageIdentity stats) = "#dc3545".
Proof.
  intros Hvalid Hzero.
  destruct (calculateMSAStats_valid this seqs Hvalid)
    as (stats & cols & Hret & Hnd & Hmem & Hcount & Hscored & Htotal & _ & Hlen).
  destruct (calculateMSAStats_fields this seqs Hvalid) as (stats' & Hret' & Hcv & Hid).
  rewrite Hret in Hret'. injection Hret' as <-.
  pose proof (NoDup_below_length cols (alignment_length seqs) Hnd
                (fun p Hp => proj1 (proj1 (Hmem p) Hp))) as Hle.
  assert (Hcp : MSAStats.conservedPositions stats = 0) by lia.
  assert (Havg : MSAStats.averageIdentity stats = nan).
  { rewrite Hid. destruct Hvalid as [Hge Hu].
    assert (Hnan : Forall (fun r => PairwiseScore.identity r = nan)
                     (MSAStats.pairwiseScores stats)).
    { clear Htotal Hid. induction Hscored as [|ij r ijs rs Hr _ IH]; constructor.
      - exact (zero_column_pair this seqs ij r Hu Hzero Hr).
      - exact IH. }
    pose proof (Forall2_length _ _ _ Hscored) as Hn.
    rewrite index_pairs_length in Hn.
    destruct (MSAStats.pairwiseScores stats) as [|r rs].
    - exfalso. cbn [length] in Hn.
      assert (2 <= length seqs * (length seqs - 1))%nat by nia.
      assert (1 <= length seqs * (length seqs - 1) / 2)%nat
        by (apply Nat.div_le_lower_bound; lia).
      lia.
    - inversion Hnan as [|? ? Hr Hrs]; subst. cbn [fold_left]. rewrite Hr.
      change (0 + nan)%float with nan.
      now rewrite (fold_identity_nan rs Hrs), nan_div. }
  exists stats. split; [exact Hret|]. split; [exact Hcp|]. split.
  - rewrite Hcv, Hcp, Hlen, Hzero. now vm_compute.
  - rewrite Havg. repeat split.
Qed.

Lemma empty_alignment_valid : valid_alignment empty_alignment.
Proof.
  split; [simpl; lia|]. apply uniform_length_Forall. repeat constructor.
Qed.

Lemma zero_column_alignment_witness :
  valid_alignment empty_alignment /\ alignment_length empty_alignment = 0%nat
  /\ exists stats, calculateMSAStats constructor empty_alignment = Return stats
       /\ MSAStats.averageIdentity stats = nan
       /\ getQualityLabel (MSAStats.averageIdentity stats) = "Poor".
Proof.
  split; [exact empty_alignment_valid|]. split; [reflexivity|].
  destruct (zero_column_alignment constructor empty_alignment
              empty_alignment_valid eq_refl)
    as (stats & Hret & _ & _ & Havg & Hlabel & _).
  exists stats. split; [exact Hret|]. split; [exact Havg | exact Hlabel].
Defined.

(** ** The MSA aggregator: record ids *)

Lemma for_loop_ext {S : Type} (body body' : nat -> S -> completion S) (count : nat) :
  (forall i s, body i s = body' i s) ->
  forall start s, for_loop start count body s = for_loop start count body' s.
Proof.
  intros Hext. induction count as [|k IH]; intros start s; simpl; [reflexivity|].
  rewrite Hext. destruct (body' start s) as [s'|e]; simpl; [apply IH | reflexivity].
Qed.

Lemma lookup_sequences (seqs : list SequenceRecord.t) : forall (seqs' : list SequenceRecord.t) (i : nat),
  map SequenceRecord.sequence seqs = map SequenceRecord.sequence seqs' ->
  SequenceRecord.sequence <$> (seqs !! i) = SequenceRecord.sequence <$> (seqs' !! i).
Proof.
  induction seqs as [|a r IH]; intros [|a' r'] i H; simpl in H; try discriminate.
  - reflexivity.
  - injection H as Ha Hr. destruct i as [|i]; simpl; [now rewrite Ha | now apply IH].
Qed.

Lemma for_of_check_length_ids (n : Z) (seqs : list SequenceRecord.t) :
  forall seqs' : list SequenceRecord.t,
  map SequenceRecord.sequence seqs = map SequenceRecord.sequence seqs' ->
  for_of seqs (check_length n) tt = for_of seqs' (check_length n) tt.
Proof.
  induction seqs as [|a r IH]; intros [|a' r'] H; simpl in H; try discriminate.
  - reflexivity.
  - injection H as Ha Hr. simpl.
    replace (check_length n a tt) with (check_length n a' tt)
      by (unfold check_length; now rewrite Ha).
    destruct (check_length n a' tt) as [[]|e]; [|reflexivity].
    rewrite !bind_Return. now apply IH.
Qed.

Lemma map_throwing_char_at_ids (p : nat) (seqs : list SequenceRecord.t) :
  forall seqs' : list SequenceRecord.t,
  map SequenceRecord.sequence seqs = map SequenceRecord.sequence seqs' ->
  map_throwing (char_at p) seqs = map_throwing (char_at p) seqs'.
Proof.
  induction seqs as [|a r IH]; intros [|a' r'] H; simpl in H; try discriminate.
  - reflexivity.
  - injection H as Ha Hr. simpl.
    replace (char_at p a) with (char_at p a') by (unfold char_at; now rewrite Ha).
    now rewrite (IH r' Hr).
Qed.

Lemma pair_body_ids (this : AlignmentScorer.t) (seqs seqs' : list SequenceRecord.t)
    (i j : nat) (st : PairState) :
  map SequenceRecord.sequence seqs = map SequenceRecord.sequence seqs' ->
  pair_body this seqs i j st = pair_body this seqs' i j st.
Proof.
  intros H. unfold pair_body.
  pose proof (lookup_sequences seqs seqs' i H) as Hi.
  pose proof (lookup_sequences seqs seqs' j H) as Hj.
  destruct (seqs !! i) as [a|], (seqs' !! i) as [a'|]; simpl in Hi; try discriminate;
    [|reflexivity].
  destruct (seqs !! j) as [b|], (seqs' !! j) as [b'|]; simpl in Hj; try discriminate;
    [|reflexivity].
  injection Hi as ->. injection Hj as ->. reflexivity.
Qed.

(** X9: the aggregator never reads the record ids: two lists of records
    with the same sequences, in the same order, get the same outcome. *)
Theorem aggregator_ignores_ids
    (this : AlignmentScorer.t) (seqs seqs' : list SequenceRecord.t) :
  map SequenceRecord.sequence seqs = map SequenceRecord.sequence seqs' ->
  calculateMSAStats this seqs = calculateMSAStats this seqs'.
Proof.
  intros H.
  assert (Hlen : length seqs = length seqs').
  { rewrite <- (length_map SequenceRecord.sequence seqs), H. apply length_map. }
  unfold calculateMSAStats. rewrite Hlen.
  destruct (length seqs' <? 2)%nat; [reflexivity|].
  pose proof (lookup_sequences seqs seqs' 0 H) as H0.
  destruct (seqs !! 0%nat) as [a|], (seqs' !! 0%nat) as [a'|]; simpl in H0;
    try discriminate; [|reflexivity].
  injection H0 as ->.
  rewrite (for_of_check_length_ids _ seqs seqs' H).
  rewrite (for_loop_ext (conservation_body seqs) (conservation_body seqs')).
  2:{ intros p acc. unfold conservation_body.
      now rewrite (map_throwing_char_at_ids p seqs seqs' H). }
  rewrite (for_loop_ext
             (fun i => for_loop (S i) (length seqs' - S i) (pair_body this seqs i))
             (fun i => for_loop (S i) (length seqs' - S i) (pair_body this seqs' i))).
  2:{ intros i st. apply for_loop_ext. intros j st'. now apply pair_body_ids. }
  reflexivity.
Qed.

Lemma aggregator_ignores_ids_witness :
  map SequenceRecord.sequence example_alignment
  = map SequenceRecord.sequence renamed_alignment
  /\ calculateMSAStats constructor example_alignment
     = calculateMSAStats constructor renamed_alignment.
Proof.
  assert (H : map SequenceRecord.sequence example_alignment
              = map SequenceRecord.sequence renamed_alignment) by reflexivity.
  split; [exact H|]. exact (aggregator_ignores_ids constructor _ _ H).
Defined.

(** ** Configuration: successive calls *)

(** X11: two calls of [setParameters] in a row act as one call with the
    fields of both, the later call winning where both supply a field; so a
    repeated call changes nothing more, and a call that supplies no field
    changes nothing. *)
Theorem setParameters_composes (this : AlignmentScorer.t) (p q : Params) :
  setParameters (setParameters this p) q = setParameters this (override p q)
  /\ setParameters (setParameters this p) p = setParameters this p
  /\ setParameters this (mkParams None None None None) = this.
Proof.
  destruct this, p as [[?|] [?|] [?|] [?|]], q as [[?|] [?|] [?|] [?|]];
    repeat split.
Qed.

(** ** The quality classifier: label and colour together *)

(** X12: the label and the colour of one percentage always belong
    together: Excellent with #28a745, Good with #ffc107, Fair with #fd7e14,
    Poor with #dc3545. *)
Theorem label_and_color_agree (x : number) :
  (getQualityLabel x = "Excellent" /\ getQualityColor x = "#28a745")
  \/ (getQualityLabel x = "Good" /\ getQualityColor x = "#ffc107")
  \/ (getQualityLabel x = "Fair" /\ getQualityColor x = "#fd7e14")
  \/ (getQualityLabel x = "Poor" /\ getQualityColor x = "#dc3545").
Proof.
  unfold getQualityLabel, getQualityColor.
  destruct (80 <=? x)%float; [now left|].
  destruct (60 <=? x)%float; [now right; left|].
  destruct (40 <=? x)%float; [now right; right; left | now right; right; right].
Qed.

(** At least a positive finite bound, and below another value: that value
    is at least the bound too. *)
Lemma SFleb_trans_bound (mc : positive) (ec : Z) (x y : spec_float) :
  SFleb (S754_finite false mc ec) x = true -> SFleb x y = true ->
  SFleb (S754_finite false mc ec) y = true.
Proof.
  destruct x as [[|]|[|]| |[|] mx ex], y as [[|]|[|]| |[|] my ey];
    cbv beta iota delta [SFleb SFcompare]; try congruence.
  change (Pos.compare_cont Eq mc mx) with (Pos.compare mc mx).
  change (Pos.compare_cont Eq mx my) with (Pos.compare mx my).
  change (Pos.compare_cont Eq mc my) with (Pos.compare mc my).
  destruct (Z.compare_spec ec ex), (Z.compare_spec ex ey), (Z.compare_spec ec ey);
    try lia; try congruence;
    destruct (Pos.compare_spec mc mx), (Pos.compare_spec mx my),
             (Pos.compare_spec mc my); try lia; congruence.
Qed.

Lemma float_leb_trans_bound (c x y : float) (mc : positive) (ec : Z) :
  Prim2SF c = S754_finite false mc ec ->
  (c <=? x)%float = true -> (x <=? y)%float = true -> (c <=? y)%float = true.
Proof.
  rewrite !FloatAxioms.leb_spec. intros ->. apply SFleb_trans_bound.
Qed.

(** X13: the classifier is monotone: a percentage at least as large as
    another never gets a lower tier. *)
Theorem classifier_monotone (x y : number) :
  (x <=? y)%float = true ->
  (tier_rank (getQualityLabel x) <= tier_rank (getQualityLabel y))%nat.
Proof.
  intros Hxy.
  assert (T80 : (80 <=? x)%float = true -> (80 <=? y)%float = true).
  { intros H. eapply (float_leb_trans_bound 80 x y); [|exact H|exact Hxy].
    vm_compute. reflexivity. }
  assert (T60 : (60 <=? x)%float = true -> (60 <=? y)%float = true).
  { intros H. eapply (float_leb_trans_bound 60 x y); [|exact H|exact Hxy].
    vm_compute. reflexivity. }
  assert (T40 : (40 <=? x)%float = true -> (40 <=? y)%float = true).
  { intros H. eapply (float_leb_trans_bound 40 x y); [|exact H|exact Hxy].
    vm_compute. reflexivity. }
  unfold getQualityLabel.
  destruct (80 <=? x)%float.
  { rewrite (T80 eq_refl). reflexivity. }
  destruct (60 <=? x)%float.
  { rewrite (T60 eq_refl). destruct (80 <=? y)%float; vm_compute; lia. }
  destruct (40 <=? x)%float.
  { rewrite (T40 eq_refl).
    destruct (80 <=? y)%float; [vm_compute; lia|].
    destruct (60 <=? y)%float; vm_compute; lia. }
  change (tier_rank "Poor") with 0%nat. lia.
Qed.

Lemma classifier_monotone_witness :
  (65 <=? 85)%float = true
  /\ (tier_rank (getQualityLabel 65%float) <= tier_rank (getQualityLabel 85%float))%nat.
Proof.
  assert (H : (65 <=? 85)%float = true) by reflexivity.
  split; [exact H|]. exact (classifier_monotone 65%float 85%float H).
Defined.

(** ** The FASTA parser: lines *)

Lemma split_lines_line (a rest : string) :
  contains newline a = false ->
  split_lines (a +:+ String newline rest) = a :: split_lines rest.
Proof.
  induction a as [|c r IH]; intros Hno.
  - rewrite append_empty_l. reflexivity.
  - simpl in Hno. apply orb_false_elim in Hno as [Hc Hr].
    rewrite append_cons. simpl. rewrite Hc, (IH Hr). reflexivity.
Qed.

Lemma records_of_skip (text : list string -> string) (l : string) (ls : list string) :
  is_header l = false -> records_of text (l :: ls) = records_of text ls.
Proof. intros H. simpl. now rewrite H. Qed.

(** X14: a first line that is not a header is dropped: the text parses as
    the text after that line does. *)
Theorem parseFASTA_drops_leading_line (line rest : string) :
  contains newline line = false -> is_header line = false ->
  parseFASTA (line +:+ String newline rest) = parseFASTA rest.
Proof.
  intros Hno Hh.
  now rewrite !parseFASTA_trimmed, (split_lines_line _ _ Hno), (records_of_skip _ _ _ Hh).
Qed.

Lemma parseFASTA_drops_leading_line_witness :
  contains newline "ACGT" = false /\ is_header "ACGT" = false
  /\ parseFASTA ("ACGT" +:+ String newline example_fasta) = parseFASTA example_fasta.
Proof.
  assert (H1 : contains newline "ACGT" = false) by reflexivity.
  assert (H2 : is_header "ACGT" = false) by reflexivity.
  split; [exact H1|]. split; [exact H2|].
  exact (parseFASTA_drops_leading_line "ACGT" example_fasta H1 H2).
Defined.

(** ** The FASTA parser and the aggregator *)

(** X16: parsing a text and aggregating the records, as the page does,
    throws the minimum-sequences error exactly when the text has fewer than
    two header lines. *)
Theorem parse_then_aggregate_minimum (this : AlignmentScorer.t) (fastaContent : string) :
  calculateMSAStats this (parseFASTA fastaContent) = Throw (Error MSG_MSA_MINIMUM)
  <-> (length (List.filter is_header (split_lines fastaContent)) < 2)%nat.
Proof.
  rewrite <- (records_of_length joined_trimmed), <- parseFASTA_trimmed.
  split.
  - intros Hthrow.
    destruct (decide (length (parseFASTA fastaContent) < 2)%nat) as [Hlt|Hge];
      [exact Hlt|exfalso].
    destruct (decide (Forall (fun s => String.length (SequenceRecord.sequence s)
                                       = alignment_length (parseFASTA fastaContent))
                             (parseFASTA fastaContent))) as [Hall|Hnot].
    + destruct (calculateMSAStats_valid this (parseFASTA fastaContent))
        as (stats & cols & Hret & _).
      { split; [lia | now apply uniform_length_Forall]. }
      rewrite Hret in Hthrow. discriminate.
    + assert (Hge2 : (2 <= length (parseFASTA fastaContent))%nat) by lia.
      rewrite (calculateMSAStats_uneven this _ Hge2) in Hthrow.
      * discriminate.
      * now rewrite uniform_length_Forall.
  - apply calculateMSAStats_too_few.
Qed.

Lemma parse_then_aggregate_minimum_witness :
  (length (List.filter is_header (split_lines single_record_fasta)) < 2)%nat
  /\ calculateMSAStats constructor (parseFASTA single_record_fasta)
     = Throw (Error MSG_MSA_MINIMUM).
Proof.
  assert (H : (length (List.filter is_header (split_lines single_record_fasta)) < 2)%nat)
    by (vm_compute; lia).
  split; [exact H|].
  exact (proj2 (parse_then_aggregate_minimum constructor single_record_fasta) H).
Defined.

(** ** The FASTA parser: reading back what was written *)

Lemma trimEnd_marker (s : string) : trimEnd (String marker s) = String marker (trimEnd s).
Proof. reflexivity. Qed.

Lemma plain_header (r : SequenceRecord.t) :
  plain r ->
  contains newline (String marker (SequenceRecord.id r)) = false
  /\ is_header (String marker (SequenceRecord.id r)) = true
  /\ header_id (String marker (SequenceRecord.id r)) = SequenceRecord.id r.
Proof.
  intros (Hid & Htrim & _). unfold is_header, header_id, trim.
  cbn [trimStart]. change (is_space marker) with false. cbv iota.
  rewrite trimEnd_marker, Htrim. repeat split. simpl. exact Hid.
Qed.

Lemma render_cons (r : SequenceRecord.t) (rest : list SequenceRecord.t) :
  render (r :: rest)
  = String marker (SequenceRecord.id r) +:+ String newline
      (SequenceRecord.sequence r +:+ String newline (render rest)).
Proof.
  cbn [render]. unfold render_record.
  rewrite (append_assoc (String marker (SequenceRecord.id r))).
  rewrite (append_cons newline), (append_assoc (SequenceRecord.sequence r)).
  rewrite (append_cons newline), append_empty_l. reflexivity.
Qed.

Lemma split_lines_render (records : list SequenceRecord.t) :
  Forall plain records ->
  split_lines (render records)
  = flat_map (fun r => [String marker (SequenceRecord.id r); SequenceRecord.sequence r])
             records ++ [EmptyString].
Proof.
  induction 1 as [|r rest Hr _ IH]; [reflexivity|].
  destruct (plain_header r Hr) as (Hno & _).
  destruct Hr as (_ & _ & Hseq & _).
  rewrite render_cons, (split_lines_line _ _ Hno), (split_lines_line _ _ Hseq), IH.
  reflexivity.
Qed.

Lemma record_lines_after (rest : list SequenceRecord.t) :
  Forall plain rest ->
  joined_trimmed
    (record_lines
       (flat_map (fun r => [String marker (SequenceRecord.id r); SequenceRecord.sequence r])
                 rest ++ [EmptyString]))
  = EmptyString.
Proof.
  intros Hrest. destruct Hrest as [|r rest Hr _]; [reflexivity|].
  destruct (plain_header r Hr) as (_ & Hh & _).
  cbn [flat_map app record_lines]. now rewrite Hh.
Qed.

Lemma records_of_render (records : list SequenceRecord.t) :
  Forall plain records ->
  records_of joined_trimmed
    (flat_map (fun r => [String marker (SequenceRecord.id r); SequenceRecord.sequence r])
              records ++ [EmptyString])
  = records.
Proof.
  induction 1 as [|r rest Hr Hrest IH]; [reflexivity|].
  destruct (plain_header r Hr) as (_ & Hh & Hid).
  destruct Hr as (_ & _ & _ & Htrim & Hstart).
  assert (Hq : is_header (SequenceRecord.sequence r) = false).
  { unfold is_header. now rewrite Htrim. }
  cbn [flat_map app records_of record_lines]. rewrite Hh, Hq, Hid, IH.
  rewrite joined_trimmed_cons, Htrim, (record_lines_after rest Hrest), append_empty_r.
  now destruct r.
Qed.

(** X15: the parser reads back what is written out: for records that fit
    on two lines each (no line feed inside, no white space at the end of
    the id or around the sequence, a sequence not starting with the
    marker), parsing their FASTA text gives the records again. *)
Theorem parseFASTA_render (records : list SequenceRecord.t) :
  Forall plain records -> parseFASTA (render records) = records.
Proof.
  intros H.
  now rewrite parseFASTA_trimmed, (split_lines_render _ H), (records_of_render _ H).
Qed.

Lemma parseFASTA_render_witness :
  Forall plain example_alignment
  /\ parseFASTA (render example_alignment) = example_alignment.
Proof.
  assert (H : Forall plain example_alignment) by (repeat constructor).
  split; [exact H|]. exact (parseFASTA_render example_alignment H).
Defined.

(** ** The FASTA parser: line breaks *)

Lemma contains_append (c : ascii) (a b : string) :
  contains c (a +:+ b) = contains c a || contains c b.
Proof.
  induction a as [|x r IH]; [reflexivity|].
  rewrite append_cons. simpl. now rewrite IH, orb_assoc.
Qed.

Lemma contains_trimStart (c : ascii) (s : string) :
  contains c s = false -> contains c (trimStart s) = false.
Proof.
  induction s as [|x r IH]; [reflexivity|]. intros H. simpl.
  destruct (is_space x); [|exact H].
  simpl in H. apply orb_false_elim in H as [_ H]. now apply IH.
Qed.

Lemma contains_trimEnd (c : ascii) (s : string) :
  contains c s = false -> contains c (trimEnd s) = false.
Proof.
  induction s as [|x r IH]; [reflexivity|]. intros H. simpl in *.
  apply orb_false_elim in H as [Hx Hr].
  destruct (is_space x && is_empty (trimEnd r)); [reflexivity|].
  simpl. now rewrite Hx, IH.
Qed.

Lemma contains_trim (c : ascii) (s : string) :
  contains c s = false -> contains c (trim s) = false.
Proof. intros H. unfold trim. now apply contains_trimEnd, contains_trimStart. Qed.

Lemma split_lines_no_newline (s : string) :
  Forall (fun l => contains newline l = false) (split_lines s).
Proof.
  induction s as [|c r IH]; [repeat constructor|].
  simpl. destruct (bool_decide (c = newline)) eqn:Ec.
  - constructor; [reflexivity | exact IH].
  - destruct (split_lines r) as [|l ls]; [repeat constructor; simpl; now rewrite Ec|].
    inversion IH as [|? ? Hl Hls]; subst.
    constructor; [simpl; now rewrite Ec, Hl | exact Hls].
Qed.

Lemma joined_trimmed_no_newline (lines : list string) :
  Forall (fun l => contains newline l = false) lines ->
  contains newline (joined_trimmed (record_lines lines)) = false.
Proof.
  induction 1 as [|l r Hl _ IH]; [reflexivity|].
  simpl. destruct (is_header l); [reflexivity|].
  rewrite joined_trimmed_cons, contains_append, IH, (contains_trim _ _ Hl).
  reflexivity.
Qed.

Lemma records_of_no_newline (lines : list string) :
  Forall (fun l => contains newline l = false) lines ->
  Forall (fun r => contains newline (SequenceRecord.id r) = false
                   /\ contains newline (SequenceRecord.sequence r) = false)
         (records_of joined_trimmed lines).
Proof.
  induction 1 as [|l r Hl Hr IH]; [constructor|].
  simpl. destruct (is_header l) eqn:Eh; [|exact IH].
  constructor; [|exact IH]. simpl. split.
  - unfold header_id. pose proof (contains_trim newline l Hl) as Ht.
    destruct (trim l) as [|x t]; [reflexivity|].
    simpl in Ht. now apply orb_false_elim in Ht as [_ Ht].
  - now apply joined_trimmed_no_newline.
Qed.

(** No id and no sequence the parser returns holds a line feed, whatever
    the text. *)
Theorem parseFASTA_fields_have_no_line_feed (fastaContent : string) :
  Forall (fun r => contains newline (SequenceRecord.id r) = false
                   /\ contains newline (SequenceRecord.sequence r) = false)
         (parseFASTA fastaContent).
Proof.
  rewrite parseFASTA_trimmed. apply records_of_no_newline, split_lines_no_newline.
Qed.

Lemma trimEnd_append_space (c : ascii) (s : string) :
  is_space c = true -> trimEnd (s +:+ String c EmptyString) = trimEnd s.
Proof.
  intros Hc. induction s as [|x r IH].
  - rewrite append_empty_l. simpl. now rewrite Hc.
  - rewrite append_cons. simpl. now rewrite IH.
Qed.

Lemma trim_append_space (c : ascii) (s : string) :
  is_space c = true -> trim (s +:+ String c EmptyString) = trim s.
Proof.
  intros Hc. unfold trim. induction s as [|x r IH].
  - rewrite append_empty_l. simpl. now rewrite Hc.
  - rewrite append_cons. simpl. destruct (is_space x); [exact IH|].
    rewrite <- append_cons. now apply trimEnd_append_space.
Qed.

(** The lines of the CRLF text: those of the text, each but the last with a
    carriage return at its end. *)
Lemma split_lines_to_crlf (s : string) :
  Forall2 (fun a b => a = b \/ a = b +:+ String carriage_return EmptyString)
          (split_lines (to_crlf s)) (split_lines s).
Proof.
  induction s as [|c r IH]; [repeat constructor|].
  simpl. destruct (bool_decide (c = newline)) eqn:Ec.
  - cbn [split_lines]. change (bool_decide (carriage_return = newline)) with false.
    cbv iota. cbn [split_lines].
    rewrite (bool_decide_eq_true_2 (newline = newline) eq_refl).
    constructor; [now right | exact IH].
  - cbn [split_lines]. rewrite Ec.
    destruct IH as [|a b la lb Hab Hrest].
    + constructor; [now left | constructor].
    + constructor; [|exact Hrest].
      destruct Hab as [->| ->]; [now left | right; now rewrite append_cons].
Qed.

Lemma records_of_same_trim (lines lines' : list string) :
  Forall2 (fun a b => trim a = trim b) lines lines' ->
  records_of joined_trimmed lines = records_of joined_trimmed lines'
  /\ joined_trimmed (record_lines lines) = joined_trimmed (record_lines lines').
Proof.
  induction 1 as [|a b la lb Hab _ [IH1 IH2]]; [now split|].
  cbn [records_of record_lines]. unfold is_header, header_id.
  rewrite Hab, IH1, IH2. destruct (startsWith_marker (trim b)); split; try reflexivity.
  now rewrite !joined_trimmed_cons, Hab, IH2.
Qed.

(** X17: line endings of carriage return and line feed are read as line
    feeds: the text with every line feed preceded by a carriage return
    parses to the same records. *)
Theorem parseFASTA_crlf (fastaContent : string) :
  parseFASTA (to_crlf fastaContent) = parseFASTA fastaContent.
Proof.
  rewrite !parseFASTA_trimmed. apply records_of_same_trim.
  eapply Forall2_impl; [apply split_lines_to_crlf|].
  intros a b [->| ->]; [reflexivity|]. now apply trim_append_space.
Qed.

(** ** The MSA aggregator: copies of one sequence *)

Lemma charAt_upper (s : string) : forall p : nat,
  charAt (upper s) p = toUpperCase <$> charAt s p.
Proof.
  unfold charAt. induction s as [|c r IH]; intros [|p]; simpl; try reflexivity.
  apply IH.
Qed.

Lemma contains_charAt (c x : ascii) (s : string) : forall p : nat,
  contains c s = false -> charAt s p = Some x -> x <> c.
Proof.
  unfold charAt. induction s as [|y r IH]; intros [|p] Hno Hget; simpl in *;
    try discriminate; apply orb_false_elim in Hno as [Hy Hr].
  - injection Hget as <-. now apply bool_decide_eq_false in Hy.
  - now apply (IH p).
Qed.

Lemma NoDup_all_below (cols : list nat) (n : nat) :
  NoDup cols -> (forall p, p ∈ cols <-> (p < n)%nat) -> length cols = n.
Proof.
  intros Hnd Hmem.
  transitivity (length (seq 0 n)); [|apply length_seq].
  apply Permutation_length, NoDup_Permutation; [exact Hnd | apply NoDup_seq|].
  intros p. rewrite Hmem, elem_of_seq. lia.
Qed.

(** X18: an alignment of copies of one gap-free sequence, letter case
    aside, is conserved in every column: conservedPositions is
    alignmentLength. *)
Theorem copies_are_fully_conserved
    (this : AlignmentScorer.t) (seqs : list SequenceRecord.t) (u : string) :
  valid_alignment seqs ->
  (forall s, s ∈ seqs -> upper (SequenceRecord.sequence s) = u) ->
  contains gap u = false ->
  exists stats, calculateMSAStats this seqs = Return stats
    /\ MSAStats.conservedPositions stats = MSAStats.alignmentLength stats.
Proof.
  intros Hvalid Hcopies Hnogap.
  destruct (calculateMSAStats_valid this seqs Hvalid)
    as (stats & cols & Hret & Hnd & Hmem & Hcount & _ & _ & _ & Hlen).
  exists stats. split; [exact Hret|]. rewrite Hcount, Hlen. f_equal.
  apply NoDup_all_below; [exact Hnd|].
  intros p. rewrite Hmem. split; [now intros [Hp _]|]. intros Hp. split; [exact Hp|].
  destruct Hvalid as [Hge _].
  destruct seqs as [|first rest]; [simpl in Hge; lia|]. simpl in Hp.
  destruct (charAt_in_range _ _ Hp) as [c0 Hc0].
  assert (Hu : forall s x, s ∈ first :: rest ->
                 charAt (SequenceRecord.sequence s) p = Some x ->
                 charAt u p = Some (toUpperCase x)).
  { intros s x Hs Hx. now rewrite <- (Hcopies s Hs), charAt_upper, Hx. }
  pose proof (Hu first c0 ltac:(left) Hc0) as Hfirst.
  exists (toUpperCase c0). split.
  - split; [exact (contains_charAt _ _ _ _ Hnogap Hfirst)|].
    exists first, c0. repeat split; [left | exact Hc0].
  - intros c' (_ & s & x & Hs & Hx & <-).
    pose proof (Hu s x Hs Hx) as Hs'. rewrite Hfirst in Hs'. now injection Hs'.
Qed.

Lemma copies_are_fully_conserved_witness :
  valid_alignment copies_alignment
  /\ exists stats, calculateMSAStats constructor copies_alignment = Return stats
       /\ MSAStats.conservedPositions stats = MSAStats.alignmentLength stats.
Proof.
  assert (Hv : valid_alignment copies_alignment).
  { split; [simpl; lia|]. apply uniform_length_Forall. repeat constructor. }
  split; [exact Hv|].
  apply (copies_are_fully_conserved constructor copies_alignment "ACGT" Hv);
    [|reflexivity].
  intros s Hs. apply list_elem_of_In in Hs.
  destruct Hs as [<-|[<-|[]]]; reflexivity.
Defined.

(** ** The pairwise scorer: concatenated alignments *)

Lemma append_length (a b : string) :
  String.length (a +:+ b) = (String.length a + String.length b)%nat.
Proof.
  induction a as [|c r IH]; [reflexivity|]. rewrite append_cons. simpl. now rewrite IH.
Qed.

Lemma column_kinds_append (a1 : string) : forall b1 a2 b2 : string,
  String.length a1 = String.length b1 ->
  column_kinds (a1 +:+ a2) (b1 +:+ b2) = column_kinds a1 b1 ++ column_kinds a2 b2.
Proof.
  induction a1 as [|c r IH]; intros [|c' r'] a2 b2 Hlen; simpl in Hlen;
    try discriminate.
  - now rewrite !append_empty_l.
  - injection Hlen as Hlen. rewrite !append_cons. simpl. now rewrite IH.
Qed.

Lemma count_kind_app (k : ColumnKind) (ks1 ks2 : list ColumnKind) :
  count_kind k (ks1 ++ ks2) = count_kind k ks1 + count_kind k ks2.
Proof.
  unfold count_kind. rewrite List.filter_app, length_app. lia.
Qed.

Lemma gap_runs_app (ks1 ks2 : list ColumnKind) :
  gap_runs (ks1 ++ ks2)
  = gap_runs ks1 + gap_runs ks2 - (if crosses_joint ks1 ks2 then 1 else 0).
Proof.
  unfold crosses_joint. induction ks1 as [|k r IH]; [simpl; lia|].
  destruct r as [|k' r'].
  - clear IH. destruct k, ks2 as [|[| |] ks2']; cbn [app gap_runs last head];
      repeat case_bool_decide; cbn [andb]; try congruence; lia.
  - change (last (k :: k' :: r')) with (last (k' :: r')).
    destruct k; cbn [app gap_runs] in *; try exact IH.
    destruct k'; lia.
Qed.

(** X19: scoring two alignments joined end to end adds up: matches,
    mismatches, gaps and length are the sums of those of the two parts, and
    gapRuns is the sum of theirs, less one exactly when a gap run goes
    across the joint: when the last column of the first part and the first
    column of the second are both gap columns. *)
Theorem pairwise_concatenation
    (this : AlignmentScorer.t) (a1 b1 a2 b2 : string) :
  String.length a1 = String.length b1 -> String.length a2 = String.length b2 ->
  exists r1 r2 r,
    calculatePairwiseScore this a1 b1 = Return r1
    /\ calculatePairwiseScore this a2 b2 = Return r2
    /\ calculatePairwiseScore this (a1 +:+ a2) (b1 +:+ b2) = Return r
    /\ PairwiseScore.matches r = PairwiseScore.matches r1 + PairwiseScore.matches r2
    /\ PairwiseScore.mismatches r
       = PairwiseScore.mismatches r1 + PairwiseScore.mismatches r2
    /\ PairwiseScore.gaps r = PairwiseScore.gaps r1 + PairwiseScore.gaps r2
    /\ PairwiseScore.length r = PairwiseScore.length r1 + PairwiseScore.length r2
    /\ PairwiseScore.gapRuns r
       = PairwiseScore.gapRuns r1 + PairwiseScore.gapRuns r2
         - (if crosses_joint (column_kinds a1 b1) (column_kinds a2 b2) then 1 else 0).
Proof.
  intros H1 H2.
  assert (H : String.length (a1 +:+ a2) = String.length (b1 +:+ b2))
    by (rewrite !append_length; lia).
  destruct (calculatePairwiseScore_returns this a1 b1 H1)
    as (r1 & Hr1 & Hm1 & Hx1 & Hg1 & Hu1 & Hl1 & _).
  destruct (calculatePairwiseScore_returns this a2 b2 H2)
    as (r2 & Hr2 & Hm2 & Hx2 & Hg2 & Hu2 & Hl2 & _).
  destruct (calculatePairwiseScore_returns this _ _ H)
    as (r & Hr & Hm & Hx & Hg & Hu & Hl & _).
  destruct (scan_counts this a1 b1 scan_init) as (Cm1 & Cx1 & Cg1 & Cu1).
  destruct (scan_counts this a2 b2 scan_init) as (Cm2 & Cx2 & Cg2 & Cu2).
  destruct (scan_counts this (a1 +:+ a2) (b1 +:+ b2) scan_init) as (Cm & Cx & Cg & Cu).
  rewrite (column_kinds_append a1 b1 a2 b2 H1), !count_kind_app in *.
  pose proof (gap_runs_app (column_kinds a1 b1) (column_kinds a2 b2)) as Hruns.
  simpl in Cm1, Cx1, Cg1, Cu1, Cm2, Cx2, Cg2, Cu2, Cm, Cx, Cg, Cu.
  exists r1, r2, r. split; [exact Hr1|]. split; [exact Hr2|]. split; [exact Hr|].
  rewrite Hm, Hx, Hg, Hu, Hl, Hm1, Hx1, Hg1, Hu1, Hl1, Hm2, Hx2, Hg2, Hu2, Hl2.
  unfold str_length. rewrite append_length. repeat split; lia.
Qed.

Lemma pairwise_concatenation_witness :
  String.length "AC-" = String.length "ACG"
  /\ String.length "-GT" = String.length "AGA"
  /\ crosses_joint (column_kinds "AC-" "ACG") (column_kinds "-GT" "AGA") = true
  /\ exists r1 r2 r,
       calculatePairwiseScore constructor "AC-" "ACG" = Return r1
       /\ calculatePairwiseScore constructor "-GT" "AGA" = Return r2
       /\ calculatePairwiseScore constructor ("AC-" +:+ "-GT") ("ACG" +:+ "AGA") = Return r
       /\ PairwiseScore.gaps r = PairwiseScore.gaps r1 + PairwiseScore.gaps r2
       /\ PairwiseScore.gapRuns r
          = PairwiseScore.gapRuns r1 + PairwiseScore.gapRuns r2 - 1
       /\ PairwiseScore.gapRuns r1 = 1 /\ PairwiseScore.gapRuns r2 = 1.
Proof.
  split; [reflexivity|]. split; [reflexivity|]. split; [reflexivity|].
  destruct (pairwise_concatenation constructor "AC-" "ACG" "-GT" "AGA" eq_refl eq_refl)
    as (r1 & r2 & r & H1 & H2 & H & _ & _ & Hg & _ & Hu).
  exists r1, r2, r. split; [exact H1|]. split; [exact H2|]. split; [exact H|].
  split; [exact Hg|]. split; [exact Hu|].
  assert (E1 : calculatePairwiseScore constructor "AC-" "ACG" = Return r1) by exact H1.
  assert (E2 : calculatePairwiseScore constructor "-GT" "AGA" = Return r2) by exact H2.
  vm_compute in E1. vm_compute in E2.
  injection E1 as <-. injection E2 as <-. split; reflexivity.
Defined.

(** ** The FASTA parser: the shape of what it returns *)

Lemma trimEnd_idempotent (s : string) : trimEnd (trimEnd s) = trimEnd s.
Proof.
  induction s as [|c r IH]; [reflexivity|]. simpl.
  destruct (is_space c && is_empty (trimEnd r)) eqn:E; [reflexivity|].
  simpl. now rewrite IH, E.
Qed.

Lemma trimStart_shape (s : string) :
  trimStart s = EmptyString
  \/ exists c r, trimStart s = String c r /\ is_space c = false.
Proof.
  induction s as [|c r IH]; [now left|]. simpl.
  destruct (is_space c) eqn:E; [exact IH|]. right. now exists c, r.
Qed.

(** A trimmed line is empty, or starts with a character that is not white
    space and has no white space at its end. *)
Lemma trim_shape (s : string) :
  trim s = EmptyString
  \/ exists c r, trim s = String c r /\ is_space c = false /\ trimEnd r = r.
Proof.
  unfold trim. destruct (trimStart_shape s) as [->|(c & r & -> & Hc)]; [now left|].
  right. exists c, (trimEnd r). simpl. rewrite Hc. simpl.
  split; [reflexivity|]. split; [reflexivity | apply trimEnd_idempotent].
Qed.

Lemma trimEnd_append_kept (b : string) :
  b <> EmptyString -> trimEnd b = b -> forall a, trimEnd (a +:+ b) = a +:+ b.
Proof.
  intros Hb Ht a. induction a as [|x r IH]; [now rewrite append_empty_l|].
  rewrite append_cons. simpl. rewrite IH.
  destruct (r +:+ b) eqn:E.
  - destruct r; [rewrite append_empty_l in E; contradiction | discriminate].
  - now rewrite andb_false_r.
Qed.

Lemma trimmed_append (a b : string) :
  trim a = a -> trim b = b -> trim (a +:+ b) = a +:+ b.
Proof.
  intros Ha Hb.
  destruct (trim_shape b) as [Eb|(y & q & Eb & Hy & Hq)]; rewrite Hb in Eb.
  { subst b. now rewrite append_empty_r. }
  destruct (trim_shape a) as [Ea|(x & r & Ea & Hx & Hr)]; rewrite Ha in Ea.
  { subst a. now rewrite append_empty_l. }
  assert (Htb : trimEnd b = b).
  { subst b. simpl. now rewrite Hy, Hq. }
  unfold trim. rewrite Ea, append_cons. simpl. rewrite Hx.
  rewrite <- append_cons, <- Ea.
  apply trimEnd_append_kept; [subst b; discriminate | exact Htb].
Qed.

Lemma trim_idempotent (s : string) : trim (trim s) = trim s.
Proof.
  destruct (trim_shape s) as [->|(c & r & -> & Hc & Hr)]; [reflexivity|].
  unfold trim. simpl. rewrite Hc. simpl. now rewrite Hc, Hr.
Qed.

Lemma joined_trimmed_is_trimmed (lines : list string) :
  trim (joined_trimmed lines) = joined_trimmed lines.
Proof.
  induction lines as [|l r IH]; [reflexivity|].
  rewrite joined_trimmed_cons. apply trimmed_append; [apply trim_idempotent | exact IH].
Qed.

Lemma startsWith_marker_append (a b : string) :
  startsWith_marker a = false -> startsWith_marker b = false ->
  startsWith_marker (a +:+ b) = false.
Proof. destruct a; [now rewrite append_empty_l | now rewrite append_cons]. Qed.

Lemma joined_record_lines_no_marker (lines : list string) :
  startsWith_marker (joined_trimmed (record_lines lines)) = false.
Proof.
  induction lines as [|l r IH]; [reflexivity|].
  simpl. destruct (is_header l) eqn:Eh; [reflexivity|].
  rewrite joined_trimmed_cons. now apply startsWith_marker_append.
Qed.

Lemma header_id_trimmed (l : string) : trimEnd (header_id l) = header_id l.
Proof.
  unfold header_id.
  destruct (trim_shape l) as [->|(c & r & -> & _ & Hr)]; [reflexivity | exact Hr].
Qed.

Lemma records_of_plain (lines : list string) :
  Forall (fun l => contains newline l = false) lines ->
  Forall plain (records_of joined_trimmed lines).
Proof.
  intros Hlines.
  pose proof (records_of_no_newline lines Hlines) as Hno. clear Hlines.
  induction lines as [|l r IH]; [constructor|].
  simpl in *. destruct (is_header l); [|now apply IH].
  inversion Hno as [|? ? [Hid Hseq] Hrest]; subst.
  constructor; [|now apply IH].
  unfold plain. cbn [SequenceRecord.id SequenceRecord.sequence] in *.
  split; [exact Hid|]. split; [apply header_id_trimmed|]. split; [exact Hseq|].
  split; [apply joined_trimmed_is_trimmed | apply joined_record_lines_no_marker].
Qed.

(** X20: whatever the text, each record the parser returns has an id
    without line feed or white space at its end and a sequence without line
    feed, without white space around it and not starting with the marker;
    so writing the parsed records out and parsing them again gives the same
    records. *)
Theorem parseFASTA_is_stable (fastaContent : string) :
  Forall plain (parseFASTA fastaContent)
  /\ parseFASTA (render (parseFASTA fastaContent)) = parseFASTA fastaContent.
Proof.
  assert (H : Forall plain (parseFASTA fastaContent)).
  { rewrite parseFASTA_trimmed. apply records_of_plain, split_lines_no_newline. }
  split; [exact H|].
  now rewrite parseFASTA_trimmed, (split_lines_render _ H), (records_of_render _ H).
Qed.

(** ** Code units above 127 *)

(** Latin-1 letters are case-normalized like the ASCII ones: e with acute
    accent in lower case matches the same letter in upper case, and the two
    make a conserved column. *)
Lemma latin1_letters_are_normalized :
  letter_pair (Ascii.ascii_of_nat 233) (Ascii.ascii_of_nat 201)
  /\ calculatePairwiseScore constructor e_acute_lower e_acute_upper
     = Return {| PairwiseScore.score := 2%float;
                 PairwiseScore.matches := 1;
                 PairwiseScore.mismatches := 0;
                 PairwiseScore.gaps := 0;
                 PairwiseScore.gapRuns := 0;
                 PairwiseScore.identity := 100%float;
                 PairwiseScore.similarity := 100%float;
                 PairwiseScore.length := 1 |}
  /\ is_conserved [toUpperCase (Ascii.ascii_of_nat 233);
                   toUpperCase (Ascii.ascii_of_nat 201)] = true.
Proof.
  split; [|split; vm_compute; reflexivity].
  split; [right; vm_compute; split; [lia | discriminate] | reflexivity].
Qed.

(** The no-break space is white space to [trim]: a header line after one
    is a header line, and one at the end of a sequence line is dropped. *)
Lemma no_break_space_is_trimmed :
  is_header (no_break_space +:+ ">x") = true
  /\ parseFASTA nbsp_fasta
     = [SequenceRecord.mk "x" "AC"; SequenceRecord.mk "y" "AG"]
  /\ length (List.filter is_header (split_lines nbsp_fasta)) = 2%nat.
Proof. repeat split; vm_compute; reflexivity. Qed.
